(** * Custom fields of jira-cli: validation, typed construction, payload

    A shallow embedding of
    - [internal/cmdcommon]: [ValidateCustomFields] and
      [ValidateAndFilterCustomFields],
    - [pkg/jira/transition.go]: [BuildCustomFieldsForTransition] and
      [transitionFieldsMarshaler.MarshalJSON],
    - [pkg/jira/createmeta.go]: [GetCreateMeta] and [GetIssueTypeFields],
    with the properties the specification states about them; and, with
    further properties read off the code, of
    - [pkg/jira/createmeta.go]: [GetCreateMetaForJiraServerV9],
    - [pkg/jira/transition.go]: [Client.Transition] and
      [NewTransitionFieldsMarshaler],
    - [internal/cmdcommon]: [GetNextAction], [GetMetadata],
      [GetMetadataQuestions] and the assignments of [HandleNoInput].

    Conventions of the embedding.
    - A Go [string] is a sequence of bytes: Rocq's [string].  The functions
      of package [strings] are written out for ASCII text: a byte of 0x80
      and above is neither a letter nor white space here, and is copied.
      The strings of [encoding/json] are written and read as Go does for
      every sequence of bytes, runes being decoded as [unicode/utf8] does.
    - A Go map that the code only ranges over is given by its entries in
      the order [range] visits them, an order Go leaves open; every
      statement below holds for each order.  [None] is the nil map.  Maps
      the code builds and reads by key are [gmap]s.
    - [float64], [strconv.ParseFloat] and the number syntax of
      [encoding/json] are a parameter of the development ([Strconv]). *)

From Stdlib Require Import Ascii String.
From stdpp Require Import base option list gmap strings sorting.

Local Open Scope string_scope.
Local Open Scope list_scope.

(** ** Package [strings] *)

Module strings.

Definition lower (c : ascii) : ascii :=
  let n := N_of_ascii c in
  if (65 <=? n)%N && (n <=? 90)%N then ascii_of_N (n + 32) else c.

Fixpoint ToLower (s : string) : string :=
  match s with
  | EmptyString => EmptyString
  | String c s' => String (lower c) (ToLower s')
  end.

Fixpoint TrimLeft (s : string) : string :=
  match s with
  | EmptyString => EmptyString
  | String c s' => if Ascii.is_space c then TrimLeft s' else s
  end.

Fixpoint TrimRight (s : string) : string :=
  match s with
  | EmptyString => EmptyString
  | String c s' =>
      match TrimRight s' with
      | EmptyString => if Ascii.is_space c then EmptyString else String c EmptyString
      | t => String c t
      end
  end.

(** [strings.TrimSpace]: leading and trailing white space removed. *)
Definition TrimSpace (s : string) : string := TrimRight (TrimLeft s).

(** [strings.HasPrefix]. *)
Definition HasPrefix (s pre : string) : bool := String.prefix pre s.

(** [strings.ReplaceAll] for a non-empty [old]: the occurrences are taken
    from the left and do not overlap.  [skip] counts the bytes of the
    occurrence just replaced that are still to be passed over. *)
Fixpoint replace_from (skip : nat) (s old new : string) : string :=
  match s with
  | EmptyString => EmptyString
  | String c s' =>
      match skip with
      | S k => replace_from k s' old new
      | O =>
          if String.prefix old s
          then new +:+ replace_from (String.length old - 1) s' old new
          else String c (replace_from 0 s' old new)
      end
  end.

Definition ReplaceAll (s old new : string) : string := replace_from 0 s old new.

(** [strings.Split] for a non-empty separator: one piece more than there
    are separators. *)
Fixpoint split_from (skip : nat) (s sep : string) : list string :=
  match s with
  | EmptyString => [EmptyString]
  | String c s' =>
      match skip with
      | S k => split_from k s' sep
      | O =>
          if String.prefix sep s
          then EmptyString :: split_from (String.length sep - 1) s' sep
          else
            match split_from 0 s' sep with
            | p :: ps => String c p :: ps
            | [] => [String c EmptyString]
            end
      end
  end.

Definition Split (s sep : string) : list string := split_from 0 s sep.

(** [strings.Join]. *)
Fixpoint Join (elems : list string) (sep : string) : string :=
  match elems with
  | [] => EmptyString
  | [e] => e
  | e :: es => e +:+ sep +:+ Join es sep
  end.

End strings.

(** ** The field schema *)

Record FieldSchema := mkSchema {
  DataType : string;
  Items : string;
}.

(** [jira.IssueTypeField], with the members the code under study reads. *)
Record IssueTypeField := mkField {
  Name : string;
  Key : string;
  Schema : FieldSchema;
}.

(** Modelled from the spec: the four [customFieldFormat...] constants, which
    are declared next to the create request and not in the files at hand.
    The specification lists the data types string, number, option, project
    and array; the tests and the configuration example use the same words. *)
Definition customFieldFormatOption : string := "option".
Definition customFieldFormatArray : string := "array".
Definition customFieldFormatNumber : string := "number".
Definition customFieldFormatProject : string := "project".

(** The matching key of a configured field, as each of the three functions
    computes it:
    [strings.ReplaceAll(strings.ToLower(strings.TrimSpace(f.Name)), " ", "-")]. *)
Definition identifier (f : IssueTypeField) : string :=
  strings.ReplaceAll (strings.ToLower (strings.TrimSpace (Name f))) " " "-".

(** A Go map given by its entries in the order [range] visits them. *)
Definition entries (V : Type) : Type := option (list (string * V)).

Definition len {V} (m : entries V) : nat :=
  match m with None => 0 | Some l => length l end.

Definition range {V} (m : entries V) : list (string * V) :=
  match m with None => [] | Some l => l end.

(** What a Go map guarantees about its entries: no key twice. *)
Definition wf_entries {V} (m : entries V) : Prop := NoDup (range m).*1.

(** The map with these entries, for reading by key. *)
Definition as_map {V} (m : entries V) : gmap string V := list_to_map (range m).


(** ** Errors *)

(** An HTTP answer, as far as the code looks at it. *)
Record Response := mkResponse {
  StatusCode : nat;
  Body : string;
}.

(** The [error] values that occur.  [fmt.Errorf] and [fmt.Sprintf] with a
    constant format and [%s] operands give a text that is fully known.
    [ValidateAndFilterCustomFields] however hands the assembled message to
    [fmt.Errorf] as the format itself: a message without ['%'] is the
    error's text unchanged, while a ['%'] starts a verb, which package [fmt]
    expands by its own rules; [ErrVerbs] stands for that expansion and
    keeps the format. *)
Inductive error : Type :=
| ErrEmptyResponse
| ErrUnexpectedResponse (res : Response)
| ErrExternal (text : string)
| ErrText (text : string)
| ErrVerbs (format : string).

(** What a call gives: its two results, or a panic. *)
Inductive outcome (A : Type) : Type :=
| Returns (result : option A) (err : option error)
| Panics.
Arguments Returns {A} result err.
Arguments Panics {A}.

Definition percent : ascii := "%"%char.

Fixpoint has_byte (c : ascii) (s : string) : bool :=
  match s with
  | EmptyString => false
  | String a s' => bool_decide (a = c) || has_byte c s'
  end.

(** [fmt.Errorf(format)] with no operands. *)
Definition Errorf0 (format : string) : error :=
  if has_byte percent format then ErrVerbs format else ErrText format.

Definition LF : string := String "010"%char EmptyString.

(** ** [cmdcommon.ValidateCustomFields]: the lenient check *)

(** The first loop: identifier to configured name. *)
Definition fieldsMap (configuredFields : list IssueTypeField) : gmap string string :=
  foldl (fun m configured => <[identifier configured := Name configured]> m)
        ∅ configuredFields.

(** The second loop: the requested keys that [fieldsMap] does not hold,
    in the order they are visited.  The key is looked up as given. *)
Definition invalidCustomFields
    (fields : entries string) (configuredFields : list IssueTypeField) : list string :=
  foldl (fun acc kv =>
           match fieldsMap configuredFields !! kv.1 with
           | Some _ => acc
           | None => acc ++ [kv.1]
           end)
        [] (range fields).

Definition warning_text (invalid : list string) : string :=
  LF +:+ "Some custom fields are not configured and will be ignored. This will fail with error in the future release."
  +:+ LF +:+ "Please make sure that the passed custom fields are valid and configured accordingly in the config file."
  +:+ LF +:+ "Invalid custom fields used in the command: " +:+ strings.Join invalid ", ".

(** The function returns nothing; what it does is hand a text to
    [cmdutil.Warn], or not.  The result is that text. *)
Definition ValidateCustomFields
    (fields : entries string) (configuredFields : list IssueTypeField) : option string :=
  if decide (len fields = 0) then None
  else
    let invalid := invalidCustomFields fields configuredFields in
    if decide (0 < length invalid) then Some (warning_text invalid) else None.

(** ** [cmdcommon.ValidateAndFilterCustomFields]: the strict validator *)

Definition configuredMap (configuredFields : list IssueTypeField) : gmap string string :=
  foldl (fun m field => <[identifier field := Key field]> m) ∅ configuredFields.

Definition availableMap (available : list IssueTypeField) : gmap string IssueTypeField :=
  foldl (fun m field => <[Key field := field]> m) ∅ available.

(** The three accumulators of the loop over the requested entries. *)
Record scan := mkScan {
  validFields : gmap string string;
  invalidFields : list string;
  invalidFieldKeys : list string;
}.

Definition scan_step
    (available configuredFields : list IssueTypeField)
    (st : scan) (kv : string * string) : scan :=
  let requestedName := kv.1 in
  let value := kv.2 in
  match configuredMap configuredFields !! strings.ToLower requestedName with
  | None =>
      mkScan (validFields st) (invalidFields st ++ [requestedName]) (invalidFieldKeys st)
  | Some fieldKey =>
      match availableMap available !! fieldKey with
      | Some _ =>
          mkScan (<[requestedName := value]> (validFields st))
                 (invalidFields st) (invalidFieldKeys st)
      | None =>
          mkScan (validFields st) (invalidFields st ++ [requestedName])
                 (invalidFieldKeys st ++ [fieldKey])
      end
  end.

Definition scan_requested
    (requested : entries string) (available configuredFields : list IssueTypeField) : scan :=
  foldl (scan_step available configuredFields) (mkScan ∅ [] []) (range requested).

(** The identifiers shown as available: fields with a key that starts with
    [customfield_] and a name that is not empty. *)
Definition availableCustomFields (available : list IssueTypeField) : list string :=
  foldl (fun acc field =>
           if strings.HasPrefix (Key field) "customfield_"
              && negb (bool_decide (Name field = EmptyString))
           then acc ++ [identifier field] else acc)
        [] available.

Definition errMsg
    (issueTypeName : string) (st : scan) (available : list IssueTypeField) : string :=
  let shown := availableCustomFields available in
  let m1 :=
    "Invalid custom fields for issue type '" +:+ issueTypeName +:+ "': "
    +:+ strings.Join (invalidFields st) ", " +:+ LF +:+ LF
    +:+ "These fields are not available on the create/edit screen for this issue type." +:+ LF
    +:+ "This is a Jira project configuration issue, not a CLI problem." +:+ LF +:+ LF in
  let m2 :=
    if decide (0 < length (invalidFieldKeys st))
    then m1 +:+ "Field IDs: " +:+ strings.Join (invalidFieldKeys st) ", " +:+ LF +:+ LF
    else m1 in
  let m3 :=
    if decide (0 < length shown)
    then m2 +:+ "Available custom fields for '" +:+ issueTypeName +:+ "':" +:+ LF +:+ "  "
            +:+ strings.Join shown (LF +:+ "  ") +:+ LF +:+ LF
    else m2 +:+ "No custom fields are available for this issue type." +:+ LF +:+ LF in
  m3 +:+ "To fix this:" +:+ LF
     +:+ "1. Check your Jira project's screen configuration" +:+ LF
     +:+ "2. Add the required fields to the issue type's create screen" +:+ LF
     +:+ "3. Or use only the fields listed as available above".

(** The pair the function returns: the filtered map ([None] is nil) and
    the error ([None] is nil). *)
Definition ValidateAndFilterCustomFields
    (requested : entries string)
    (available configuredFields : list IssueTypeField)
    (issueTypeName : string) : option (gmap string string) * option error :=
  if decide (len requested = 0) then (list_to_map <$> requested, None)
  else
    let st := scan_requested requested available configuredFields in
    if decide (0 < length (invalidFields st))
    then (None, Some (Errorf0 (errMsg issueTypeName st available)))
    else (Some (validFields st), None).


(** ** Typed values *)

(** What package [strconv] and the number encoder of [encoding/json]
    contribute.  [ParseFloat s] is [strconv.ParseFloat(s, 64)], [None]
    when it returns an error; [FormatFloat] is the JSON text of a number,
    [None] for the values JSON cannot hold (NaN and the infinities). *)
Class Strconv := {
  float64 : Type;
  ParseFloat : string → option float64;
  FormatFloat : float64 → option string;
}.

Fixpoint digits_value (acc : N) (s : string) : option N :=
  match s with
  | EmptyString => Some acc
  | String c s' =>
      match Ascii.is_nat c with
      | Some d => digits_value (10 * acc + N.of_nat d) s'
      | None => None
      end
  end.

Fixpoint digits_text (fuel : nat) (n : N) (acc : string) : string :=
  match fuel with
  | O => acc
  | S fuel' =>
      let acc' := String (ascii_of_N (48 + n mod 10)) acc in
      if (n <? 10)%N then acc' else digits_text fuel' (n / 10) acc'
  end.

(** An instance to run the code on examples: it reads a run of decimal
    digits as the whole number it denotes and writes it back in digits, as
    Go does for such numbers up to 2^53, and it refuses every other text.
    The theorems are proved for every instance. *)
#[export] Instance whole_numbers : Strconv := {|
  float64 := N;
  ParseFloat s := if decide (s = EmptyString) then None else digits_value 0 s;
  FormatFloat n := Some (digits_text (S (N.to_nat (N.log2 n))) n EmptyString);
|}.

(** ** Package [unicode/utf8] *)

Module utf8.

Definition between (lo hi : N) (c : ascii) : bool :=
  (lo <=? N_of_ascii c)%N && (N_of_ascii c <=? hi)%N.

(** A continuation byte, 0x80 to 0xBF. *)
Definition cont (c : ascii) : bool := between 128 191 c.

(** The table [first] with [acceptRanges]: for the leading byte of a
    sequence of more than one byte, the length of the sequence and the
    range of its second byte.  0xC0, 0xC1 and 0xF5 to 0xFF lead nothing, and
    the ranges keep out the overlong forms, the surrogates and what lies
    above U+10FFFF. *)
Definition first (c : ascii) : option (nat * N * N) :=
  let n := N_of_ascii c in
  if (194 <=? n)%N && (n <=? 223)%N then Some (2, 128%N, 191%N)
  else if (n =? 224)%N then Some (3, 160%N, 191%N)
  else if (225 <=? n)%N && (n <=? 236)%N then Some (3, 128%N, 191%N)
  else if (n =? 237)%N then Some (3, 128%N, 159%N)
  else if (238 <=? n)%N && (n <=? 239)%N then Some (3, 128%N, 191%N)
  else if (n =? 240)%N then Some (4, 144%N, 191%N)
  else if (241 <=? n)%N && (n <=? 243)%N then Some (4, 128%N, 191%N)
  else if (n =? 244)%N then Some (4, 128%N, 143%N)
  else None.

(** [DecodeRuneInString], as far as the size it returns: the length of
    the well-formed sequence at the head of [s], 1 for an ASCII byte, and
    [None] where Go returns [RuneError] with size 1 (with size 0 for the
    empty string). *)
Definition size (s : string) : option nat :=
  match s with
  | EmptyString => None
  | String s0 t =>
      if (N_of_ascii s0 <? 128)%N then Some 1
      else
        match first s0, t with
        | Some (sz, lo, hi), String s1 t1 =>
            if between lo hi s1 then
              match sz with
              | 2 => Some 2
              | _ =>
                  match t1 with
                  | String s2 t2 =>
                      if cont s2 then
                        match sz with
                        | 3 => Some 3
                        | _ =>
                            match t2 with
                            | String s3 _ => if cont s3 then Some 4 else None
                            | EmptyString => None
                            end
                        end
                      else None
                  | EmptyString => None
                  end
              end
            else None
        | _, _ => None
        end
  end.

(** U+FFFD, the replacement character, in UTF-8. *)
Definition replacement : string :=
  String "239" (String "191" (String "189" EmptyString)).

Definition byte (n : N) : ascii := ascii_of_N n.

(** [EncodeRune]: a surrogate and a value above U+10FFFF are written as
    U+FFFD. *)
Definition EncodeRune (r : N) : string :=
  if (r <? 128)%N then String (byte r) EmptyString
  else if (r <? 2048)%N then
    String (byte (192 + r / 64)) (String (byte (128 + r mod 64)) EmptyString)
  else if (55296 <=? r)%N && (r <=? 57343)%N then replacement
  else if (r <? 65536)%N then
    String (byte (224 + r / 4096))
      (String (byte (128 + (r / 64) mod 64)) (String (byte (128 + r mod 64)) EmptyString))
  else if (r <=? 1114111)%N then
    String (byte (240 + r / 262144))
      (String (byte (128 + (r / 4096) mod 64))
         (String (byte (128 + (r / 64) mod 64))
            (String (byte (128 + r mod 64)) EmptyString)))
  else replacement.

(** The string with every byte that is not part of a well-formed sequence
    replaced by U+FFFD: what decoding rune by rune and encoding each rune
    again gives. *)
Fixpoint coerce (s : string) : string :=
  match s with
  | EmptyString => EmptyString
  | String c s1 =>
      match size s, s1 with
      | Some 2, String c1 s2 => String c (String c1 (coerce s2))
      | Some 3, String c1 (String c2 s3) => String c (String c1 (String c2 (coerce s3)))
      | Some 4, String c1 (String c2 (String c3 s4)) =>
          String c (String c1 (String c2 (String c3 (coerce s4))))
      | Some _, _ => String c (coerce s1)
      | None, _ => replacement +:+ coerce s1
      end
  end.

(** [ValidString]. *)
Fixpoint ValidString (s : string) : bool :=
  match s with
  | EmptyString => true
  | String c s1 =>
      match size s, s1 with
      | Some 2, String c1 s2 => ValidString s2
      | Some 3, String c1 (String c2 s3) => ValidString s3
      | Some 4, String c1 (String c2 (String c3 s4)) => ValidString s4
      | Some _, _ => ValidString s1
      | None, _ => false
      end
  end.

End utf8.

(** ** Package [encoding/json]: strings *)

Module json.

Definition quote : ascii := "034"%char.
Definition backslash : ascii := "092"%char.

Definition hex (n : N) : ascii :=
  match n with
  | 0 => "0" | 1 => "1" | 2 => "2" | 3 => "3" | 4 => "4" | 5 => "5" | 6 => "6"
  | 7 => "7" | 8 => "8" | 9 => "9" | 10 => "a" | 11 => "b" | 12 => "c"
  | 13 => "d" | 14 => "e" | _ => "f"
  end%N%char.

Definition unhex (c : ascii) : option N :=
  let n := N_of_ascii c in
  if (48 <=? n)%N && (n <=? 57)%N then Some (n - 48)%N
  else if (97 <=? n)%N && (n <=? 102)%N then Some (n - 87)%N
  else if (65 <=? n)%N && (n <=? 70)%N then Some (n - 55)%N
  else None.

(** One ASCII byte of a string as the encoder writes it, with the
    escaping of HTML characters that [json.Marshal] has on: the quote and
    the backslash behind a backslash, the five short escapes, [\u00XX] for
    the other control characters and for [<], [>] and [&], and every
    other byte as it is. *)
Definition escape_byte (c : ascii) : string :=
  let n := N_of_ascii c in
  if bool_decide (c = quote) || bool_decide (c = backslash)
  then String backslash (String c EmptyString)
  else if (n =? 8)%N then String backslash "b"
  else if (n =? 12)%N then String backslash "f"
  else if (n =? 10)%N then String backslash "n"
  else if (n =? 13)%N then String backslash "r"
  else if (n =? 9)%N then String backslash "t"
  else if (n <? 32)%N || bool_decide (c = "<"%char) || bool_decide (c = ">"%char)
          || bool_decide (c = "&"%char)
  then String backslash "u00" +:+ String (hex (n / 16)) (String (hex (n mod 16)) EmptyString)
  else String c EmptyString.

(** The bytes of U+2028 and of U+2029: 0xE2 0x80 and then 0xA8 or 0xA9. *)
Definition line_separator (c c1 c2 : ascii) : bool :=
  (N_of_ascii c =? 226)%N && (N_of_ascii c1 =? 128)%N
  && ((N_of_ascii c2 =? 168)%N || (N_of_ascii c2 =? 169)%N).

(** The text of a string between its quotes, as the encoder writes it.  An
    ASCII byte goes through [escape_byte].  From a byte of 0x80 and above
    the encoder decodes a rune: a byte that starts no well-formed sequence
    is written as the six bytes of the escape for U+FFFD, the runes U+2028
    and U+2029 are written as their escapes, and the bytes of every other
    rune are copied. *)
Fixpoint escape (s : string) : string :=
  match s with
  | EmptyString => EmptyString
  | String c s1 =>
      match utf8.size s, s1 with
      | Some 2, String c1 s2 => String c (String c1 (escape s2))
      | Some 3, String c1 (String c2 s3) =>
          if line_separator c c1 c2
          then String backslash "u202"
               +:+ String (hex (N_of_ascii c2 mod 16)) (escape s3)
          else String c (String c1 (String c2 (escape s3)))
      | Some 4, String c1 (String c2 (String c3 s4)) =>
          String c (String c1 (String c2 (String c3 (escape s4))))
      | Some _, _ => escape_byte c +:+ escape s1
      | None, _ => String backslash "ufffd" +:+ escape s1
      end
  end.

Definition encodeString (s : string) : string :=
  String quote (escape s +:+ String quote EmptyString).

(** The byte a short escape stands for. *)
Definition short_escape (e : ascii) : option ascii :=
  if bool_decide (e = quote) then Some quote
  else if bool_decide (e = backslash) then Some backslash
  else if bool_decide (e = "/"%char) then Some "/"%char
  else if bool_decide (e = "b"%char) then Some "008"%char
  else if bool_decide (e = "f"%char) then Some "012"%char
  else if bool_decide (e = "n"%char) then Some "010"%char
  else if bool_decide (e = "r"%char) then Some "013"%char
  else if bool_decide (e = "t"%char) then Some "009"%char
  else None.

(** [getu4] behind the [\u]: the code unit of four hexadecimal digits. *)
Definition getu4 (h1 h2 h3 h4 : ascii) : option N :=
  a ← unhex h1; b ← unhex h2; c ← unhex h3; d ← unhex h4;
  Some (((a * 16 + b) * 16 + c) * 16 + d)%N.

Definition IsSurrogate (r : N) : bool := (55296 <=? r)%N && (r <? 57344)%N.

(** The rune of a surrogate pair, when [rr] is the first half of one and
    the text goes on with the escape of a second half ([utf16.DecodeRune]
    of the two code units). *)
Definition pair (rr : N) (s : string) : option N :=
  if (55296 <=? rr)%N && (rr <? 56320)%N then
    match s with
    | String b (String u (String h1 (String h2 (String h3 (String h4 _))))) =>
        if bool_decide (b = backslash) && bool_decide (u = "u"%char) then
          match getu4 h1 h2 h3 h4 with
          | Some rr1 =>
              if (56320 <=? rr1)%N && (rr1 <? 57344)%N
              then Some ((rr - 55296) * 1024 + (rr1 - 56320) + 65536)%N
              else None
          | None => None
          end
        else None
    | _ => None
    end
  else None.

(** What has been read, in front of what the rest of the literal gives. *)
Definition more (read : string) (r : option (string * string))
    : option (string * string) :=
  match r with
  | Some (t, rest) => Some (read +:+ t, rest)
  | None => None
  end.

(** Reads a string literal from behind its opening quote: the string
    and the text after the closing quote.  An escape [\uXXXX] gives the
    UTF-8 of its code unit, two escapes that are a surrogate pair give
    the UTF-8 of their rune, and a surrogate alone gives U+FFFD.  Raw
    bytes are coerced to well-formed UTF-8: a byte of 0x80 and above that
    starts no well-formed sequence is read as U+FFFD. *)
Fixpoint read_string (s : string) : option (string * string) :=
  match s with
  | EmptyString => None
  | String c s1 =>
      if bool_decide (c = quote) then Some (EmptyString, s1)
      else if bool_decide (c = backslash) then
        match s1 with
        | EmptyString => None
        | String e s2 =>
            match short_escape e with
            | Some b => more (String b EmptyString) (read_string s2)
            | None =>
                if bool_decide (e = "u"%char) then
                  match s2 with
                  | String h1 (String h2 (String h3 (String h4 s3))) =>
                      match getu4 h1 h2 h3 h4 with
                      | Some rr =>
                          match pair rr s3, s3 with
                          | Some dec,
                            String _ (String _ (String _ (String _ (String _ (String _ s4))))) =>
                              more (utf8.EncodeRune dec) (read_string s4)
                          | _, _ =>
                              more (if IsSurrogate rr then utf8.replacement
                                    else utf8.EncodeRune rr)
                                   (read_string s3)
                          end
                      | None => None
                      end
                  | _ => None
                  end
                else None
            end
        end
      else if (N_of_ascii c <? 32)%N then None
      else
        match utf8.size s, s1 with
        | Some 2, String c1 s2 =>
            more (String c (String c1 EmptyString)) (read_string s2)
        | Some 3, String c1 (String c2 s3) =>
            more (String c (String c1 (String c2 EmptyString))) (read_string s3)
        | Some 4, String c1 (String c2 (String c3 s4)) =>
            more (String c (String c1 (String c2 (String c3 EmptyString))))
                 (read_string s4)
        | Some _, _ => more (String c EmptyString) (read_string s1)
        | None, _ => more utf8.replacement (read_string s1)
        end
  end.

Definition is_ws (c : ascii) : bool :=
  bool_decide (c = " "%char) || bool_decide (c = "009"%char)
  || bool_decide (c = "010"%char) || bool_decide (c = "013"%char).

Fixpoint skip_ws (s : string) : string :=
  match s with
  | EmptyString => EmptyString
  | String c s' => if is_ws c then skip_ws s' else s
  end.

End json.

(** The two struct types of single-select and project values, each with
    the one member [Value], as the builder and the tests construct them. *)
Inductive customFieldTypeOption : Type := mkOption (Value : string).
Inductive customFieldTypeProject : Type := mkProject (Value : string).

Section Engine.
Context `{Strconv}.

(** The dynamic values held in a [customField] map and in the generic map
    of the marshaler ([interface{}]), by their Go type: [string],
    [customFieldTypeNumber], [customFieldTypeOption],
    [customFieldTypeProject], [[]customFieldTypeOption], [[]string], and
    [map[string]interface{}], which the JSON reader produces. *)
#[warnings="-register-all"]
Inductive any : Type :=
| AString (s : string)
| ANumber (num : float64)
| AOption (o : customFieldTypeOption)
| AProject (p : customFieldTypeProject)
| AOptions (items : list customFieldTypeOption)
| AStrings (trimmed : list string)
| AObject (m : gmap string any).

(** ** [jira.BuildCustomFieldsForTransition] *)

(** The [switch] on the data type.  Each of its branches ends in an
    assignment to [cf[configured.Key]]; this is the value assigned. *)
Definition classify (val : string) (configured : IssueTypeField) : any :=
  let dataType := DataType (Schema configured) in
  if decide (dataType = customFieldFormatOption) then AOption (mkOption val)
  else if decide (dataType = customFieldFormatProject) then AProject (mkProject val)
  else if decide (dataType = customFieldFormatArray) then
    let pieces := strings.Split (strings.TrimSpace val) "," in
    if decide (Items (Schema configured) = customFieldFormatOption)
    then AOptions (foldl (fun items p => items ++ [mkOption (strings.TrimSpace p)]) [] pieces)
    else AStrings (foldl (fun trimmed p => trimmed ++ [strings.TrimSpace p]) [] pieces)
  else if decide (dataType = customFieldFormatNumber) then
    match ParseFloat val with
    | None => AString val
    | Some num => ANumber num
    end
  else AString val.

(** The inner loop, over the configured fields, for one requested entry.
    There is no [break]: every field with a matching identifier assigns. *)
Definition build_entry
    (configuredFields : list IssueTypeField)
    (cf : gmap string any) (kv : string * string) : gmap string any :=
  foldl (fun cf configured =>
           if decide (identifier configured ≠ strings.ToLower kv.1) then cf
           else <[Key configured := classify kv.2 configured]> cf)
        cf configuredFields.

(** [None] is the nil [customField]. *)
Definition BuildCustomFieldsForTransition
    (fields : entries string) (configuredFields : list IssueTypeField)
    : option (gmap string any) :=
  if decide (len fields = 0 ∨ length configuredFields = 0) then None
  else Some (foldl (build_entry configuredFields) ∅ (range fields)).

(** ** Package [encoding/json]: values *)

(** Modelled from the spec: the JSON shape of [customFieldTypeOption] and
    [customFieldTypeProject], whose declarations with their field tags are
    not in the files at hand.  The specification gives the object
    [{"value": "<display>"}] for option and project values alike. *)
Definition option_text (o : customFieldTypeOption) : string :=
  let 'mkOption Value := o in
  "{" +:+ json.encodeString "value" +:+ ":" +:+ json.encodeString Value +:+ "}".

Definition project_text (p : customFieldTypeProject) : string :=
  let 'mkProject Value := p in
  "{" +:+ json.encodeString "value" +:+ ":" +:+ json.encodeString Value +:+ "}".

Definition member_text (kv : string * string) : string :=
  json.encodeString kv.1 +:+ ":" +:+ kv.2.

(** The members of an object are written in the order of their keys. *)
Definition by_key (a b : string * string) : Prop := String.le a.1 b.1.

#[export] Instance by_key_dec : RelDecision by_key.
Proof. intros a b. unfold by_key. apply _. Defined.

Definition object_text (members : list (string * string)) : string :=
  "{" +:+ strings.Join (member_text <$> merge_sort by_key members) "," +:+ "}".

Definition array_text (elems : list string) : string :=
  "[" +:+ strings.Join elems "," +:+ "]".

Definition keyed (kv : string * option string) : option (string * string) :=
  match kv.2 with Some t => Some (kv.1, t) | None => None end.

(** [json.Marshal] of a dynamic value; [None] is the error for a number
    that JSON cannot hold. *)
Fixpoint json_Marshal (v : any) : option string :=
  match v with
  | AString s => Some (json.encodeString s)
  | ANumber num => FormatFloat num
  | AOption o => Some (option_text o)
  | AProject p => Some (project_text p)
  | AOptions items => Some (array_text (option_text <$> items))
  | AStrings trimmed => Some (array_text (json.encodeString <$> trimmed))
  | AObject m => object_text <$> mapM keyed (map_to_list (json_Marshal <$> m))
  end.

(** Reads a JSON document of objects and strings, which is what
    [json.Marshal] writes for [TransitionRequestFields]; a document with
    another kind of value is outside this reader.  A key met twice keeps
    its last value.  [fuel] bounds the nesting and the number of members. *)
Fixpoint read_value (fuel : nat) (s : string) : option (any * string) :=
  match fuel with
  | O => None
  | S fuel' =>
      match json.skip_ws s with
      | String c s1 =>
          if bool_decide (c = json.quote) then
            match json.read_string s1 with
            | Some (t, rest) => Some (AString t, rest)
            | None => None
            end
          else if bool_decide (c = "{"%char) then
            match json.skip_ws s1 with
            | String c2 s2 =>
                if bool_decide (c2 = "}"%char) then Some (AObject ∅, s2)
                else read_members fuel' (json.skip_ws s1) ∅
            | EmptyString => None
            end
          else None
      | EmptyString => None
      end
  end
with read_members (fuel : nat) (s : string) (acc : gmap string any)
    : option (any * string) :=
  match fuel with
  | O => None
  | S fuel' =>
      match json.skip_ws s with
      | String c s1 =>
          if bool_decide (c = json.quote) then
            match json.read_string s1 with
            | Some (key, rest) =>
                match json.skip_ws rest with
                | String c2 s2 =>
                    if bool_decide (c2 = ":"%char) then
                      match read_value fuel' s2 with
                      | Some (v, rest2) =>
                          match json.skip_ws rest2 with
                          | String c3 s3 =>
                              if bool_decide (c3 = ","%char)
                              then read_members fuel' s3 (<[key := v]> acc)
                              else if bool_decide (c3 = "}"%char)
                              then Some (AObject (<[key := v]> acc), s3)
                              else None
                          | EmptyString => None
                          end
                      | None => None
                      end
                    else None
                | EmptyString => None
                end
            | None => None
            end
          else None
      | EmptyString => None
      end
  end.

(** [json.Unmarshal] into an [interface{}]; [None] is its error. *)
Definition json_Unmarshal (data : string) : option any :=
  match read_value (String.length data) data with
  | Some (v, rest) =>
      match json.skip_ws rest with
      | EmptyString => Some v
      | String _ _ => None
      end
  | None => None
  end.

(** ** The transition request fields and their marshaler *)

(** The anonymous [struct { Name string }] behind the two pointers. *)
Inductive named : Type := mkNamed (Name : string).

Record TransitionRequestFields := mkFields {
  Assignee : option named;
  Resolution : option named;
  customFields : option (gmap string any);
}.

Record transitionFieldsMarshaler := mkMarshaler {
  M : TransitionRequestFields;
}.

Definition named_text (n : named) : string :=
  let 'mkNamed Name := n in
  "{" +:+ json.encodeString "name" +:+ ":" +:+ json.encodeString Name +:+ "}".

(** [json.Marshal] of the struct: its exported fields in the order of
    their declaration, a nil pointer left out ([omitempty]); the
    unexported [customFields] is not written.  It has no error. *)
Definition json_Marshal_fields (f : TransitionRequestFields) : string :=
  let assignee :=
    match Assignee f with
    | Some n => [member_text ("assignee", named_text n)]
    | None => []
    end in
  let resolution :=
    match Resolution f with
    | Some n => [member_text ("resolution", named_text n)]
    | None => []
    end in
  "{" +:+ strings.Join (assignee ++ resolution) "," +:+ "}".

(** The loop that injects the custom fields, over the entries as visited. *)
Definition inject (visited : list (string * any)) (dm : gmap string any)
    : gmap string any :=
  foldl (fun dm kv => <[kv.1 := kv.2]> dm) dm visited.

Definition customFields_visited (f : TransitionRequestFields) : list (string * any) :=
  match customFields f with
  | Some cf => map_to_list cf
  | None => []
  end.

(** [transitionFieldsMarshaler.MarshalJSON].  The type assertion on the
    re-read document panics when that is not an object. *)
Definition MarshalJSON (tfm : transitionFieldsMarshaler) : outcome string :=
  let m := json_Marshal_fields (M tfm) in
  match json_Unmarshal m with
  | None => Returns None (Some (ErrExternal "json: syntax error"))
  | Some temp =>
      match temp with
      | AObject dm =>
          match json_Marshal (AObject (inject (customFields_visited (M tfm)) dm)) with
          | Some data => Returns (Some data) None
          | None => Returns None (Some (ErrExternal "json: unsupported value"))
          end
      | _ => Panics
      end
  end.

(** [NewTransitionFieldsMarshaler]. *)
Definition NewTransitionFieldsMarshaler
    (fields : TransitionRequestFields) (custom : option (gmap string any))
    : transitionFieldsMarshaler :=
  mkMarshaler (mkFields (Assignee fields) (Resolution fields) custom).

(** A static field as the re-read gives it: an object with the name,
    which the reader has coerced to well-formed UTF-8. *)
Definition named_value (n : named) : any :=
  let 'mkNamed Name := n in AObject {[ "name" := AString (utf8.coerce Name) ]}.

(** The generic map that the re-read document of the static fields is. *)
Definition fields_generic (f : TransitionRequestFields) : gmap string any :=
  let dm := match Assignee f with
            | Some n => <["assignee" := named_value n]> ∅
            | None => ∅
            end in
  match Resolution f with
  | Some n => <["resolution" := named_value n]> dm
  | None => dm
  end.

End Engine.


(** ** [createmeta.go] *)

Module createmeta.

Record CreateMetaRequest := mkRequest {
  Projects : string;
  IssueTypeNames : string;
  Expand : string;
}.

(** The embedded [IssueType], of which the code reads the [ID]. *)
Record IssueType := mkIssueType {
  ID : string;
}.

Record CreateMetaIssueType := mkMetaIssueType {
  issueType : IssueType;
  Fields : entries IssueTypeField;
}.

(** One element of [CreateMetaResponse.Projects].  The issue types are
    pointers: [None] is a nil pointer. *)
Record Project := mkMetaProject {
  ProjectKey : string;
  ProjectName : string;
  IssueTypes : list (option CreateMetaIssueType);
}.

Record CreateMetaResponse := mkMeta {
  MetaProjects : list Project;
}.

Section Client.
(** The client: what [c.GetV2] answers for a path, and what the JSON
    decoder makes of a body, the response it has filled in and its error. *)
Variable GetV2 : string → option Response * option error.
Variable Decode : string → CreateMetaResponse * option error.

Definition StatusOK : nat := 200.

(** [Client.GetCreateMeta]: the response pointer and the error. *)
Definition GetCreateMeta (req : CreateMetaRequest)
    : option CreateMetaResponse * option error :=
  let path := "/issue/createmeta?projectKeys=" +:+ Projects req
              +:+ "&expand=" +:+ Expand req in
  let path := if decide (IssueTypeNames req ≠ EmptyString)
              then path +:+ "&issuetypeNames=" +:+ IssueTypeNames req
              else path in
  match GetV2 path with
  | (_, Some err) => (None, Some err)
  | (None, None) => (None, Some ErrEmptyResponse)
  | (Some res, None) =>
      if decide (StatusCode res ≠ StatusOK)
      then (None, Some (ErrUnexpectedResponse res))
      else let '(out, err) := Decode (Body res) in (Some out, err)
  end.

(** The loop over the issue types of the first project. *)
Fixpoint find_issue_type
    (project issueTypeID : string) (issueTypes : list (option CreateMetaIssueType))
    : outcome (list IssueTypeField) :=
  match issueTypes with
  | [] =>
      Returns None
        (Some (ErrText ("issue type with ID " +:+ issueTypeID
                        +:+ " not found in project " +:+ project)))
  | None :: _ => Panics
  | Some it :: rest =>
      if decide (ID (issueType it) = issueTypeID)
      then Returns (Some (foldl (fun fields kv => fields ++ [kv.2]) [] (range (Fields it)))) None
      else find_issue_type project issueTypeID rest
  end.

(** [Client.GetIssueTypeFields]. *)
Definition GetIssueTypeFields (project issueTypeID : string)
    : outcome (list IssueTypeField) :=
  match GetCreateMeta (mkRequest project EmptyString "projects.issuetypes.fields") with
  | (_, Some err) => Returns None (Some err)
  | (None, None) => Panics
  | (Some meta, None) =>
      match MetaProjects meta with
      | [] => Returns None (Some (ErrText ("no project found for key: " +:+ project)))
      | first :: _ => find_issue_type project issueTypeID (IssueTypes first)
      end
  end.

End Client.

(** One element of [CreateMetaResponseJiraServerV9.Values]. *)
Record IssueTypeValue := mkValue {
  ValueID : string;
  ValueName : string;
  Subtask : bool;
}.

Record CreateMetaResponseJiraServerV9 := mkMetaV9 {
  Values : list IssueTypeValue;
}.

Section ClientV9.
Variable GetV2 : string → option Response * option error.
Variable DecodeV9 : string → CreateMetaResponseJiraServerV9 * option error.

(** [Client.GetCreateMetaForJiraServerV9]: the response pointer and the
    error. *)
Definition GetCreateMetaForJiraServerV9 (req : CreateMetaRequest)
    : option CreateMetaResponseJiraServerV9 * option error :=
  let path := "/issue/createmeta/" +:+ Projects req
              +:+ "/issuetypes?expand=" +:+ Expand req in
  let path := if decide (IssueTypeNames req ≠ EmptyString)
              then path +:+ "&issuetypeNames=" +:+ IssueTypeNames req
              else path in
  match GetV2 path with
  | (_, Some err) => (None, Some err)
  | (None, None) => (None, Some ErrEmptyResponse)
  | (Some res, None) =>
      if decide (StatusCode res ≠ StatusOK)
      then (None, Some (ErrUnexpectedResponse res))
      else let '(out, err) := DecodeV9 (Body res) in (Some out, err)
  end.

End ClientV9.

End createmeta.

(** * [jira.Client.Transition] *)

Module transition.

Section Client.
Context `{Strconv}.

(** [TransitionRequestData]. *)
Record TransitionRequestData := mkData {
  ID : string;
  Name : string;
}.

(** [TransitionRequestUpdate]: the bodies of the comments to add, each
    standing for one [{Add: {Body: ...}}] of the slice. *)
Record TransitionRequestUpdate := mkUpdate {
  Comment : list string;
}.

(** [TransitionRequest].  The field [Transition] of the source is
    [transition] here, the name [Transition] being the method's. *)
Record TransitionRequest := mkTransitionRequest {
  Update : option TransitionRequestUpdate;
  Fields : option transitionFieldsMarshaler;
  transition : option TransitionRequestData;
}.

Definition StatusNoContent : nat := 204.

Definition comment_text (body : string) : string :=
  "{" +:+ json.encodeString "add" +:+ ":{" +:+ json.encodeString "body" +:+ ":"
  +:+ json.encodeString body +:+ "}}".

(** [json.Marshal] of the update: the comments are left out when there
    is none ([omitempty]). *)
Definition update_text (u : TransitionRequestUpdate) : string :=
  match Comment u with
  | [] => "{}"
  | bodies =>
      "{" +:+ json.encodeString "comment" +:+ ":"
      +:+ array_text (comment_text <$> bodies) +:+ "}"
  end.

(** [json.Marshal] of the transition data; the member has no
    [omitempty], a nil pointer is written as [null]. *)
Definition data_text (d : option TransitionRequestData) : string :=
  match d with
  | Some d =>
      "{" +:+ json.encodeString "id" +:+ ":" +:+ json.encodeString (ID d) +:+ ","
      +:+ json.encodeString "name" +:+ ":" +:+ json.encodeString (Name d) +:+ "}"
  | None => "null"
  end.

(** The client: what [c.PostV2] answers for a path and a body, the
    headers being the same in every call; and the text of an error, its
    method [Error]. *)
Variable PostV2 : string → string → option Response * option error.
Variable Error : error → string.

(** The [*json.MarshalerError] that the encoder makes of the error of a
    [MarshalJSON]. *)
Definition MarshalerError (err : error) : error :=
  ErrExternal ("json: error calling MarshalJSON for type *jira.transitionFieldsMarshaler: "
               +:+ Error err).

(** [json.Marshal(&data)]: the members in the order of the struct, the
    nil [Update] and [Fields] left out ([omitempty]).  For [Fields] the
    encoder calls [MarshalJSON] and compacts its bytes, which leaves the
    bytes of a [json.Marshal] as they are; bytes that are missing give the
    error of the compaction. *)
Definition json_Marshal_request (data : option TransitionRequest) : outcome string :=
  match data with
  | None => Returns (Some "null") None
  | Some req =>
      let update :=
        match Update req with
        | Some u => [member_text ("update", update_text u)]
        | None => []
        end in
      let members fields :=
        update ++ fields ++ [member_text ("transition", data_text (transition req))] in
      let object fields :=
        Returns (Some ("{" +:+ strings.Join (members fields) "," +:+ "}")) None in
      match Fields req with
      | None => object []
      | Some tfm =>
          match MarshalJSON tfm with
          | Panics => Panics
          | Returns _ (Some err) => Returns None (Some (MarshalerError err))
          | Returns (Some text) None => object [member_text ("fields", text)]
          | Returns None None =>
              Returns None (Some (MarshalerError (ErrExternal "unexpected end of JSON input")))
          end
      end
  end.

(** [Client.Transition]: the status and the error. *)
Definition Transition (key : string) (data : option TransitionRequest) : outcome nat :=
  match json_Marshal_request data with
  | Panics => Panics
  | Returns _ (Some err) => Returns (Some 0) (Some err)
  | Returns body None =>
      let path := "/issue/" +:+ key +:+ "/transitions" in
      match PostV2 path (default EmptyString body) with
      | (_, Some err) => Returns (Some 0) (Some err)
      | (None, None) => Returns (Some 0) (Some ErrEmptyResponse)
      | (Some res, None) =>
          if decide (StatusCode res ≠ StatusNoContent)
          then Returns (Some (StatusCode res)) (Some (ErrUnexpectedResponse res))
          else Returns (Some (StatusCode res)) None
      end
  end.

End Client.

End transition.

(** * Package [cmdcommon]: the questions of the create command *)

(** Package [survey], as far as the code fills its types in. *)
Module survey.

Inductive prompt : Type :=
| Select (Message : string) (Options : list string)
| MultiSelect (Message : string) (Options : list string)
| Input (Message Help : string).

Inductive Validator : Type := Required.

Record Question := mkQuestion {
  Name : string;
  Prompt : prompt;
  Validate : option Validator;
}.

End survey.

Module create.

Definition ActionSubmit : string := "Submit".
Definition ActionCancel : string := "Cancel".
Definition ActionMetadata : string := "Add metadata".

(** [GetNextAction]. *)
Definition GetNextAction : survey.Question :=
  survey.mkQuestion "action"
    (survey.Select "What's next?" [ActionSubmit; ActionMetadata; ActionCancel])
    (Some survey.Required).

(** [GetMetadata]. *)
Definition GetMetadata : list survey.Question :=
  [survey.mkQuestion "metadata"
     (survey.MultiSelect "What would you like to add?"
        ["Priority"; "Components"; "Labels"; "FixVersions"; "AffectsVersions"])
     None].

(** [GetMetadataQuestions]: the loop with its [switch]. *)
Definition GetMetadataQuestions (cat : list string) : list survey.Question :=
  foldl (fun qs c =>
           if decide (c = "Priority") then
             qs ++ [survey.mkQuestion "priority" (survey.Input "Priority" EmptyString) None]
           else if decide (c = "Components") then
             qs ++ [survey.mkQuestion "components"
                      (survey.Input "Components"
                         "Comma separated list of valid components. For eg: BE,FE")
                      None]
           else if decide (c = "Labels") then
             qs ++ [survey.mkQuestion "labels"
                      (survey.Input "Labels"
                         "Comma separated list of labels. For eg: backend,urgent")
                      None]
           else if decide (c = "FixVersions") then
             qs ++ [survey.mkQuestion "fixversions"
                      (survey.Input "Fix Versions"
                         "Comma separated list of fixVersions. For eg: v1.0-beta,v2.0")
                      None]
           else if decide (c = "AffectsVersions") then
             qs ++ [survey.mkQuestion "affectsversions"
                      (survey.Input "Affects Versions"
                         "Comma separated list of affectsVersions. For eg: v1.0-beta,v2.0")
                      None]
           else qs)
        [] cat.

(** [CreateParams]. *)
Record CreateParams := mkCreateParams {
  Name : string;
  IssueType : string;
  IssueTypeID : string;
  ParentIssueKey : string;
  Summary : string;
  Body : string;
  Priority : string;
  Reporter : string;
  Assignee : string;
  Labels : list string;
  Components : list string;
  FixVersions : list string;
  AffectsVersions : list string;
  OriginalEstimate : string;
  CustomFields : entries string;
  Template : string;
  NoInput : bool;
  Debug : bool;
}.

(** The assignments to one field of [params]. *)
Definition set_Priority (v : string) (p : CreateParams) : CreateParams :=
  mkCreateParams (Name p) (IssueType p) (IssueTypeID p) (ParentIssueKey p) (Summary p)
    (Body p) v (Reporter p) (Assignee p) (Labels p) (Components p) (FixVersions p)
    (AffectsVersions p) (OriginalEstimate p) (CustomFields p) (Template p) (NoInput p)
    (Debug p).

Definition set_Labels (v : list string) (p : CreateParams) : CreateParams :=
  mkCreateParams (Name p) (IssueType p) (IssueTypeID p) (ParentIssueKey p) (Summary p)
    (Body p) (Priority p) (Reporter p) (Assignee p) v (Components p) (FixVersions p)
    (AffectsVersions p) (OriginalEstimate p) (CustomFields p) (Template p) (NoInput p)
    (Debug p).

Definition set_Components (v : list string) (p : CreateParams) : CreateParams :=
  mkCreateParams (Name p) (IssueType p) (IssueTypeID p) (ParentIssueKey p) (Summary p)
    (Body p) (Priority p) (Reporter p) (Assignee p) (Labels p) v (FixVersions p)
    (AffectsVersions p) (OriginalEstimate p) (CustomFields p) (Template p) (NoInput p)
    (Debug p).

Definition set_FixVersions (v : list string) (p : CreateParams) : CreateParams :=
  mkCreateParams (Name p) (IssueType p) (IssueTypeID p) (ParentIssueKey p) (Summary p)
    (Body p) (Priority p) (Reporter p) (Assignee p) (Labels p) (Components p) v
    (AffectsVersions p) (OriginalEstimate p) (CustomFields p) (Template p) (NoInput p)
    (Debug p).

Definition set_AffectsVersions (v : list string) (p : CreateParams) : CreateParams :=
  mkCreateParams (Name p) (IssueType p) (IssueTypeID p) (ParentIssueKey p) (Summary p)
    (Body p) (Priority p) (Reporter p) (Assignee p) (Labels p) (Components p)
    (FixVersions p) v (OriginalEstimate p) (CustomFields p) (Template p) (NoInput p)
    (Debug p).

(** The answers to the metadata questions, the [ans] of [HandleNoInput];
    a question that was not asked leaves its field empty. *)
Module ans.
Record t := mk {
  Priority : string;
  Labels : string;
  Components : string;
  FixVersions : string;
  AffectsVersions : string;
}.
End ans.

(** What [HandleNoInput] assigns to [params] from the answers of one
    round of metadata questions.  The loop around it, which asks the user
    and ends the process on a cancel, is not followed here. *)
Definition HandleNoInput_assign (a : ans.t) (params : CreateParams) : CreateParams :=
  let params := if decide (ans.Priority a ≠ EmptyString)
                then set_Priority (ans.Priority a) params else params in
  let params := if decide (0 < String.length (ans.Labels a))
                then set_Labels (strings.Split (ans.Labels a) ",") params
                else params in
  let params := if decide (0 < String.length (ans.Components a))
                then set_Components (strings.Split (ans.Components a) ",") params
                else params in
  let params := if decide (0 < String.length (ans.FixVersions a))
                then set_FixVersions (strings.Split (ans.FixVersions a) ",") params
                else params in
  if decide (0 < String.length (ans.AffectsVersions a))
  then set_AffectsVersions (strings.Split (ans.AffectsVersions a) ",") params
  else params.

End create.

(** * Notions used in the statements *)

(** ** Text *)

Definition comma : ascii := ","%char.

(** A byte put in front of the first piece of a split. *)
Definition cons_head (c : ascii) (l : list string) : list string :=
  match l with
  | p :: ps => String c p :: ps
  | [] => [String c EmptyString]
  end.

(** [f] on the last piece, the others as they are. *)
Fixpoint map_last (f : string → string) (l : list string) : list string :=
  match l with
  | [] => []
  | [p] => [f p]
  | p :: ps => p :: map_last f ps
  end.

(** Empty, or white space only. *)
Fixpoint all_space (s : string) : bool :=
  match s with
  | EmptyString => true
  | String c s' => Ascii.is_space c && all_space s'
  end.

(** [x] occurs in [s]. *)
Definition occurs (x s : string) : Prop := ∃ a b, s = a +:+ x +:+ b.

(** The same, as a test. *)
Fixpoint occursb (x s : string) : bool :=
  String.prefix x s ||
  match s with
  | EmptyString => false
  | String _ s' => occursb x s'
  end.

(** No ['%'] in the text. *)
Definition plain (s : string) : Prop := has_byte percent s = false.

(** ** The builder *)

(** A configured field answers a requested name under a key. *)
Definition answers (name k : string) (f : IssueTypeField) : Prop :=
  identifier f = strings.ToLower name ∧ Key f = k.

#[local] Instance answers_dec name k f : Decision (answers name k f).
Proof. unfold answers. apply _. Defined.

(** ** The strict validator *)

(** How the loop judges one requested name. *)
Inductive verdict : Type :=
| Kept
| Unknown
| Unavailable (fieldKey : string).

Definition judge (available configuredFields : list IssueTypeField) (name : string) : verdict :=
  match configuredMap configuredFields !! strings.ToLower name with
  | None => Unknown
  | Some fieldKey =>
      match availableMap available !! fieldKey with
      | Some _ => Kept
      | None => Unavailable fieldKey
      end
  end.

#[export] Instance verdict_eq_dec : EqDecision verdict.
Proof. solve_decision. Defined.

(** The key recorded for the diagnostic, if any. *)
Definition unavailable_key (v : verdict) : option string :=
  match v with Unavailable k => Some k | _ => None end.

(** The configured field that stands for a requested name in the strict
    validator: the last one whose identifier is the lowercased name, since
    a later field overwrites an earlier one in [configuredMap]. *)
Definition configured_for (configuredFields : list IssueTypeField) (name : string)
    : option IssueTypeField :=
  last (filter (fun f => identifier f = strings.ToLower name) configuredFields).

(** No configured field has the lowercased name as its identifier. *)
Definition no_schema (configuredFields : list IssueTypeField) (name : string) : Prop :=
  ∀ f, f ∈ configuredFields → identifier f ≠ strings.ToLower name.

(** The name resolves to a key that no available field has. *)
Definition off_screen (available configuredFields : list IssueTypeField) (name : string)
    : Prop :=
  ∃ f, configured_for configuredFields name = Some f ∧
       ∀ g, g ∈ available → Key g ≠ Key f.

Definition invalid_name (available configuredFields : list IssueTypeField) (name : string)
    : Prop :=
  no_schema configuredFields name ∨ off_screen available configuredFields name.

(** ** The create metadata *)

(** The error of [GetIssueTypeFields] for an ID that is not there. *)
Definition not_found (project issueTypeID : string) : error :=
  ErrText ("issue type with ID " +:+ issueTypeID +:+ " not found in project " +:+ project).

(** The values of the field map of an issue type, as visited. *)
Definition field_values (it : createmeta.CreateMetaIssueType) : list IssueTypeField :=
  (range (createmeta.Fields it)).*2.

(** The call returns a non-nil error and no result. *)
Definition is_error {A} (r : outcome A) : Prop := ∃ err, r = Returns None (Some err).

(** ** Sample data *)

(** The configured fields of the repository's tests and notes. *)
Definition story_points : IssueTypeField :=
  mkField "Story Points" "customfield_10001" (mkSchema customFieldFormatNumber EmptyString).

Definition tags (items : string) : IssueTypeField :=
  mkField "Tags" "customfield_10003" (mkSchema customFieldFormatArray items).

Definition environment : IssueTypeField :=
  mkField "Environment" "customfield_10002" (mkSchema customFieldFormatOption EmptyString).

(** Two configured fields with one identifier and two keys. *)
Definition env_first : IssueTypeField :=
  mkField "Env" "customfield_1" (mkSchema "string" EmptyString).
Definition env_second : IssueTypeField :=
  mkField "env" "customfield_2" (mkSchema "string" EmptyString).

(** A client whose server answers with one project of one issue type. *)
Definition story_type : createmeta.CreateMetaIssueType :=
  createmeta.mkMetaIssueType (createmeta.mkIssueType "10001") (Some [("customfield_10001", story_points)]).

Definition one_project : createmeta.CreateMetaResponse :=
  createmeta.mkMeta [createmeta.mkMetaProject "PRJ" "Project" [Some story_type]].

Definition answer_ok (path : string) : option Response * option error :=
  (Some (mkResponse 200 "{}"), None).

Definition decode_one_project (body : string) : createmeta.CreateMetaResponse * option error :=
  (one_project, None).

(** A response whose one project has [null] for its one issue type. *)
Definition null_type_project : createmeta.CreateMetaResponse :=
  createmeta.mkMeta [createmeta.mkMetaProject "PRJ" "Project" [None]].

Definition decode_null_type (body : string) : createmeta.CreateMetaResponse * option error :=
  (null_type_project, None).

(** ** Further notions *)

(** The number of bytes [c] in [s]. *)
Fixpoint count_byte (c : ascii) (s : string) : nat :=
  match s with
  | EmptyString => 0
  | String a s' => (if bool_decide (a = c) then 1 else 0) + count_byte c s'
  end.

(** A piece as the array branch leaves it: no comma in it, no white space
    around it. *)
Definition trimmed_piece (p : string) : Prop :=
  has_byte comma p = false ∧ strings.TrimSpace p = p.

(** Text of ASCII bytes only.  On such text [TrimSpace] as written out
    above is the one of Go, which on other text also removes the white
    space of Unicode. *)
Fixpoint ascii_only (s : string) : bool :=
  match s with
  | EmptyString => true
  | String c s' => (N_of_ascii c <? 128)%N && ascii_only s'
  end.

(** The requested entries with their names in lower case. *)
Definition lower_names (l : list (string * string)) : list (string * string) :=
  (fun kv => (strings.ToLower kv.1, kv.2)) <$> l.

Definition space : ascii := " "%char.

(** Configured fields that share a key share their identifier. *)
Definition key_coherent (configuredFields : list IssueTypeField) : Prop :=
  ∀ f g, f ∈ configuredFields → g ∈ configuredFields →
         Key f = Key g → identifier f = identifier g.

Section EngineNotions.
Context `{Strconv}.

(** What one requested entry leaves under the key [k], if it writes there. *)
Definition written (configuredFields : list IssueTypeField) (k : string)
    (kv : string * string) : option any :=
  classify kv.2 <$> last (filter (answers kv.1 k) configuredFields).

End EngineNotions.

(** The path that [GetCreateMeta] asks for. *)
Definition createmeta_path (req : createmeta.CreateMetaRequest) : string :=
  let path := "/issue/createmeta?projectKeys=" +:+ createmeta.Projects req
              +:+ "&expand=" +:+ createmeta.Expand req in
  if decide (createmeta.IssueTypeNames req ≠ EmptyString)
  then path +:+ "&issuetypeNames=" +:+ createmeta.IssueTypeNames req
  else path.

(** The path that [GetCreateMetaForJiraServerV9] asks for. *)
Definition createmeta_v9_path (req : createmeta.CreateMetaRequest) : string :=
  let path := "/issue/createmeta/" +:+ createmeta.Projects req
              +:+ "/issuetypes?expand=" +:+ createmeta.Expand req in
  if decide (createmeta.IssueTypeNames req ≠ EmptyString)
  then path +:+ "&issuetypeNames=" +:+ createmeta.IssueTypeNames req
  else path.

(** The one path that [GetIssueTypeFields] asks for. *)
Definition fields_path (project : string) : string :=
  "/issue/createmeta?projectKeys=" +:+ project +:+ "&expand=projects.issuetypes.fields".

(** A nil pointer stands in the list before any issue type with the ID. *)
Definition nil_before_match (issueTypeID : string)
    (issueTypes : list (option createmeta.CreateMetaIssueType)) : Prop :=
  ∃ before after,
    issueTypes = before ++ None :: after ∧
    ∀ x, x ∈ before →
      ∃ it, x = Some it ∧ createmeta.ID (createmeta.issueType it) ≠ issueTypeID.

(** A transport that answers one path only. *)
Definition answer_at (path : string) (res : Response) (asked : string)
    : option Response * option error :=
  if decide (asked = path) then (Some res, None)
  else (None, Some (ErrExternal "no route")).

Section MarshalerNotions.
Context `{Strconv}.

(** The static fields with their names coerced to well-formed UTF-8, which
    is how the marshaler's re-read gives them back. *)
Definition coerced_name (n : named) : named :=
  let 'mkNamed Name := n in mkNamed (utf8.coerce Name).

Definition coerced (f : TransitionRequestFields) : TransitionRequestFields :=
  mkFields (coerced_name <$> Assignee f) (coerced_name <$> Resolution f)
           (customFields f).

Definition valid_name (n : named) : Prop :=
  let 'mkNamed Name := n in utf8.ValidString Name = true.

(** The names that are set are well-formed UTF-8. *)
Definition valid_names (f : TransitionRequestFields) : Prop :=
  ∀ Name, Assignee f = Some (mkNamed Name) ∨ Resolution f = Some (mkNamed Name) →
          utf8.ValidString Name = true.

(** The custom-field set as a map, the nil set being empty. *)
Definition custom_map (custom : option (gmap string any)) : gmap string any :=
  default ∅ custom.

(** The error of [json.Marshal] for a value it cannot write. *)
Definition unsupported : error := ErrExternal "json: unsupported value".

End MarshalerNotions.

(** Whole numbers and one value more that is not a number: [ParseFloat]
    reads it from the text [NaN], and no JSON number stands for it. *)
Definition numbers_and_NaN : Strconv := {|
  float64 := option N;
  ParseFloat s := if decide (s = "NaN") then Some None
                  else Some <$> ParseFloat (Strconv := whole_numbers) s;
  FormatFloat n := n ≫= FormatFloat (Strconv := whole_numbers);
|}.

(** The path that [Transition] posts to. *)
Definition transitions_path (key : string) : string :=
  "/issue/" +:+ key +:+ "/transitions".

(** A transport that takes every request and answers with one status. *)
Definition always (status : nat) (path body : string)
    : option Response * option error :=
  (Some (mkResponse status EmptyString), None).

(** The categories that [GetMetadata] lets the user choose from. *)
Definition offered : list string :=
  q ← create.GetMetadata;
  match survey.Prompt q with
  | survey.MultiSelect _ Options => Options
  | _ => []
  end.

(** The four list fields of the parameters, each with its answer. *)
Definition list_fields
    : list ((create.ans.t → string) * (create.CreateParams → list string)) :=
  [(create.ans.Labels, create.Labels); (create.ans.Components, create.Components);
   (create.ans.FixVersions, create.FixVersions);
   (create.ans.AffectsVersions, create.AffectsVersions)].

(** The value that [ParseFloat] of [numbers_and_NaN] reads from [NaN]. *)
Definition NaN_value : any (H := numbers_and_NaN) :=
  ANumber (H := numbers_and_NaN) None.

(** A request for a transition with that value as its story points. *)
Definition NaN_request : transition.TransitionRequest (H := numbers_and_NaN) :=
  transition.mkTransitionRequest None
    (Some (NewTransitionFieldsMarshaler (mkFields None None None)
             (Some {[ "customfield_10001" := NaN_value ]})))
    (Some (transition.mkData "31" "Done")).

(** Story points of 5 as the one custom field of a request. *)
Definition five_points : gmap string any :=
  {[ "customfield_10001" := ANumber 5%N ]}.

Definition five_points_request : transition.TransitionRequest :=
  transition.mkTransitionRequest None
    (Some (NewTransitionFieldsMarshaler (mkFields None None None) (Some five_points)))
    (Some (transition.mkData "31" "Done")).

(** Parameters with nothing set, and answers with the labels typed. *)
Definition no_params : create.CreateParams :=
  create.mkCreateParams EmptyString EmptyString EmptyString EmptyString EmptyString
    EmptyString EmptyString EmptyString EmptyString [] [] [] [] EmptyString None
    EmptyString false false.

Definition labels_typed : create.ans.t :=
  create.ans.mk EmptyString "backend, urgent" EmptyString EmptyString EmptyString.

(** * Facts about package [strings] *)

Lemma string_app_cons c (a b : string) : String c a +:+ b = String c (a +:+ b).
Proof. reflexivity. Qed.

Lemma string_app_nil_l (b : string) : EmptyString +:+ b = b.
Proof. reflexivity. Qed.

Lemma string_app_assoc (a b c : string) : (a +:+ b) +:+ c = a +:+ (b +:+ c).
Proof. induction a as [|x a IH]; [done|]. by rewrite !string_app_cons, IH. Qed.

Lemma string_app_nil_r (a : string) : a +:+ EmptyString = a.
Proof. induction a as [|x a IH]; [done|]. by rewrite string_app_cons, IH. Qed.

Lemma string_length_app (a b : string) :
  String.length (a +:+ b) = (String.length a + String.length b)%nat.
Proof. induction a as [|c a IH]; [done|]. rewrite string_app_cons. cbn. by rewrite IH. Qed.

Lemma prefix_app x s : String.prefix x s = true ↔ ∃ b, s = x +:+ b.
Proof.
  revert s. induction x as [|c x IH]; intros s.
  - split; [|by destruct s]. intros _. by exists s.
  - destruct s as [|d s]; cbn.
    + split; [done|]. by intros [b [=]].
    + destruct (ascii_dec c d) as [->|Hne].
      * rewrite IH. split; intros [b Hb]; exists b;
          [by rewrite Hb | by rewrite string_app_cons in Hb; injection Hb].
      * split; [done|]. intros [b Hb]. rewrite string_app_cons in Hb. by injection Hb.
Qed.

Lemma occursb_occurs x s : occursb x s = true ↔ occurs x s.
Proof.
  induction s as [|c s IH].
  - cbn [occursb]. rewrite orb_false_r, prefix_app. split.
    + intros [b Hb]. by exists EmptyString, b.
    + intros ([|??] & b & Hb); [by exists b | by rewrite string_app_cons in Hb].
  - cbn [occursb]. rewrite orb_true_iff, IH, prefix_app. split.
    + intros [[b Hb]|(a & b & Hs)].
      * by exists EmptyString, b.
      * exists (String c a), b. by rewrite string_app_cons, Hs.
    + intros ([|d a] & b & Hb).
      * left. by exists b.
      * right. rewrite string_app_cons in Hb. injection Hb as _ Hs. by exists a, b.
Qed.

Lemma occurs_refl x : occurs x x.
Proof. exists EmptyString, EmptyString. by rewrite string_app_nil_l, string_app_nil_r. Qed.

Lemma occurs_app_l x s t : occurs x s → occurs x (s +:+ t).
Proof.
  intros (a & b & ->). exists a, (b +:+ t). by rewrite !string_app_assoc.
Qed.

Lemma occurs_app_r x s t : occurs x t → occurs x (s +:+ t).
Proof.
  intros (a & b & ->). exists (s +:+ a), b. by rewrite !string_app_assoc.
Qed.

Lemma occurs_Join x l sep : x ∈ l → occurs x (strings.Join l sep).
Proof.
  induction l as [|y [|z l] IH]; intros Hin.
  - by apply elem_of_nil in Hin.
  - apply list_elem_of_singleton in Hin as ->. apply occurs_refl.
  - apply elem_of_cons in Hin as [->|Hin].
    + change (occurs y (y +:+ sep +:+ strings.Join (z :: l) sep)).
      apply occurs_app_l, occurs_refl.
    + change (occurs x (y +:+ sep +:+ strings.Join (z :: l) sep)).
      by apply occurs_app_r, occurs_app_r, IH.
Qed.

Ltac find_occurrence :=
  first
    [ apply occurs_refl
    | apply occurs_Join; assumption
    | apply occurs_app_l; find_occurrence
    | apply occurs_app_r; find_occurrence ].

Lemma prefix_comma c s :
  String.prefix "," (String c s) = bool_decide (c = comma).
Proof.
  cbn [String.prefix]. destruct (ascii_dec "," c) as [<-|Hne].
  - by destruct s.
  - by rewrite bool_decide_eq_false_2.
Qed.

Lemma Split_comma_cons c s :
  strings.Split (String c s) "," =
  if bool_decide (c = comma) then EmptyString :: strings.Split s ","
  else cons_head c (strings.Split s ",").
Proof.
  unfold strings.Split. cbn [strings.split_from]. rewrite prefix_comma.
  by case_bool_decide.
Qed.

Lemma Split_nonempty s : strings.Split s "," ≠ [].
Proof.
  destruct s as [|c s]; [done|]. rewrite Split_comma_cons.
  case_bool_decide; [done|]. by destruct (strings.Split s ",").
Qed.

Lemma space_not_comma c : Ascii.is_space c = true → c ≠ comma.
Proof. intros Hs ->. discriminate Hs. Qed.

Lemma all_space_Split s : all_space s = true → strings.Split s "," = [s].
Proof.
  induction s as [|c s IH]; [done|]. cbn [all_space].
  intros [Hc Hs]%andb_prop. rewrite Split_comma_cons, (IH Hs).
  rewrite bool_decide_eq_false_2 by by apply space_not_comma. done.
Qed.

Lemma TrimRight_empty s : strings.TrimRight s = EmptyString ↔ all_space s = true.
Proof.
  induction s as [|c s IH]; [done|]. cbn [strings.TrimRight all_space].
  destruct (strings.TrimRight s) eqn:Ht.
  - destruct (Ascii.is_space c); cbn; [tauto|]. split; [done|]. intros [=].
  - split; [done|]. intros [_ Hs]%andb_prop. apply IH in Hs. done.
Qed.

Lemma TrimLeft_all_space s : all_space s = true → strings.TrimLeft s = EmptyString.
Proof.
  induction s as [|c s IH]; [done|]. cbn. intros [-> Hs]%andb_prop. auto.
Qed.

Lemma TrimSpace_all_space s : all_space s = true → strings.TrimSpace s = EmptyString.
Proof. intros Hs. unfold strings.TrimSpace. by rewrite TrimLeft_all_space. Qed.

Lemma TrimRight_cons c s :
  strings.TrimRight (String c s) =
  if all_space s then (if Ascii.is_space c then EmptyString else String c EmptyString)
  else String c (strings.TrimRight s).
Proof.
  cbn [strings.TrimRight]. destruct (all_space s) eqn:Hs.
  - apply TrimRight_empty in Hs. by rewrite Hs.
  - destruct (strings.TrimRight s) eqn:Ht; [|done].
    apply TrimRight_empty in Ht. congruence.
Qed.

Lemma TrimRight_idemp s : strings.TrimRight (strings.TrimRight s) = strings.TrimRight s.
Proof.
  induction s as [|c s IH]; [done|]. rewrite TrimRight_cons.
  destruct (all_space s) eqn:Hs.
  - destruct (Ascii.is_space c) eqn:Hc; [done|]. cbn. by rewrite Hc.
  - rewrite TrimRight_cons, IH.
    destruct (all_space (strings.TrimRight s)) eqn:Hs'; [|done].
    apply TrimRight_empty in Hs'. rewrite IH in Hs'. apply TrimRight_empty in Hs'. congruence.
Qed.

Lemma TrimLeft_TrimRight s :
  strings.TrimLeft (strings.TrimRight s) = strings.TrimRight (strings.TrimLeft s).
Proof.
  induction s as [|c s IH]; [done|]. cbn [strings.TrimLeft].
  destruct (Ascii.is_space c) eqn:Hc.
  - rewrite TrimRight_cons, Hc. destruct (all_space s) eqn:Hs.
    + by rewrite (TrimLeft_all_space s).
    + cbn [strings.TrimLeft]. by rewrite Hc.
  - rewrite TrimRight_cons, Hc. destruct (all_space s); cbn [strings.TrimLeft]; by rewrite Hc.
Qed.

Lemma TrimSpace_TrimRight s : strings.TrimSpace (strings.TrimRight s) = strings.TrimSpace s.
Proof. unfold strings.TrimSpace. by rewrite TrimLeft_TrimRight, TrimRight_idemp. Qed.

Lemma TrimLeft_idemp s : strings.TrimLeft (strings.TrimLeft s) = strings.TrimLeft s.
Proof.
  induction s as [|c s IH]; [done|]. cbn. destruct (Ascii.is_space c) eqn:Hc; [done|].
  cbn. by rewrite Hc.
Qed.

Lemma TrimSpace_TrimLeft s : strings.TrimSpace (strings.TrimLeft s) = strings.TrimSpace s.
Proof. unfold strings.TrimSpace. by rewrite TrimLeft_idemp. Qed.

Lemma Split_single s p : strings.Split s "," = [p] → p = s.
Proof.
  revert p. induction s as [|c s IH]; intros p.
  - by intros [= <-].
  - rewrite Split_comma_cons. case_bool_decide; [intros [= _ Hs]; by apply Split_nonempty in Hs|].
    destruct (strings.Split s ",") as [|q [|??]] eqn:Hq; cbn; intros [= <-]; [|by rewrite (IH q)].
    by apply Split_nonempty in Hq.
Qed.

Lemma map_last_cons f p l : l ≠ [] → map_last f (p :: l) = p :: map_last f l.
Proof. by destruct l. Qed.

Lemma Split_TrimRight s :
  strings.Split (strings.TrimRight s) "," = map_last strings.TrimRight (strings.Split s ",").
Proof.
  induction s as [|c s IH]; [done|].
  rewrite TrimRight_cons. destruct (all_space s) eqn:Hs.
  - rewrite (Split_comma_cons c s), (all_space_Split s Hs).
    pose proof (proj2 (TrimRight_empty s) Hs) as Ht.
    destruct (Ascii.is_space c) eqn:Hc.
    + rewrite bool_decide_eq_false_2 by by apply space_not_comma.
      cbn [cons_head map_last]. by rewrite TrimRight_cons, Hs, Hc.
    + rewrite Split_comma_cons. case_bool_decide.
      * cbn. by rewrite Ht.
      * cbn [cons_head map_last strings.Split strings.split_from].
        by rewrite TrimRight_cons, Hs, Hc.
  - rewrite !Split_comma_cons, IH. case_bool_decide.
    + rewrite map_last_cons by apply Split_nonempty. done.
    + destruct (strings.Split s ",") as [|p [|q l]] eqn:Hp.
      * by apply Split_nonempty in Hp.
      * apply Split_single in Hp as ->. cbn [cons_head map_last].
        by rewrite TrimRight_cons, Hs.
      * done.
Qed.

Lemma Split_TrimLeft s :
  strings.Split (strings.TrimLeft s) "," =
  match strings.Split s "," with
  | p :: ps => strings.TrimLeft p :: ps
  | [] => []
  end.
Proof.
  induction s as [|c s IH]; [done|]. cbn [strings.TrimLeft].
  destruct (Ascii.is_space c) eqn:Hc.
  - rewrite IH, Split_comma_cons, bool_decide_eq_false_2 by by apply space_not_comma.
    destruct (strings.Split s ",") as [|p ps] eqn:Hp; [by apply Split_nonempty in Hp|].
    cbn. by rewrite Hc.
  - rewrite Split_comma_cons. case_bool_decide; [done|].
    destruct (strings.Split s ","); cbn; by rewrite Hc.
Qed.

Lemma map_TrimSpace_map_last l :
  strings.TrimSpace <$> map_last strings.TrimRight l = strings.TrimSpace <$> l.
Proof.
  induction l as [|p [|q l] IH]; [done| |].
  - cbn. by rewrite TrimSpace_TrimRight.
  - cbn [map_last fmap list_fmap]. cbn [map_last fmap list_fmap] in IH. by rewrite IH.
Qed.

(** Trimming the whole value before the split changes no trimmed piece. *)
Lemma Split_TrimSpace_pieces s :
  strings.TrimSpace <$> strings.Split (strings.TrimSpace s) "," =
  strings.TrimSpace <$> strings.Split s ",".
Proof.
  unfold strings.TrimSpace at 2. rewrite Split_TrimRight, map_TrimSpace_map_last, Split_TrimLeft.
  destruct (strings.Split s ",") as [|p ps]; [done|]. cbn. by rewrite TrimSpace_TrimLeft.
Qed.

(** * Facts about lists and maps *)

Lemma foldl_snoc_fmap {A B} (f : A → B) (l : list A) (init : list B) :
  foldl (fun acc x => acc ++ [f x]) init l = init ++ (f <$> l).
Proof.
  revert init. induction l as [|x l IH]; intros init; cbn.
  - by rewrite app_nil_r.
  - by rewrite IH, <- app_assoc.
Qed.

Lemma filter_all {A} (P : A → Prop) `{∀ x, Decision (P x)} (l : list A) :
  (∀ x, x ∈ l → P x) → filter P l = l.
Proof.
  induction l as [|x l IH]; intros Hall; [done|].
  rewrite filter_cons, decide_True by (apply Hall; left).
  rewrite IH; [done|]. intros y Hy. apply Hall. by right.
Qed.

Lemma last_filter_None {A} (P : A → Prop) `{∀ x, Decision (P x)} (l : list A) :
  last (filter P l) = None ↔ ∀ x, x ∈ l → ¬ P x.
Proof.
  rewrite last_None. split.
  - intros Hnil x Hin HP. assert (x ∈ filter P l) as Hx by by apply list_elem_of_filter.
    rewrite Hnil in Hx. by apply elem_of_nil in Hx.
  - intros Hall. destruct (filter P l) as [|x l'] eqn:Hf; [done|].
    assert (x ∈ filter P l) as [HP Hin]%list_elem_of_filter by (rewrite Hf; left).
    by destruct (Hall x Hin).
Qed.

Lemma length_pos_elem {A} (x : A) (l : list A) : x ∈ l → (0 < length l)%nat.
Proof. destruct l; [by intros ?%elem_of_nil | cbn; lia]. Qed.

Lemma foldl_insert_list_to_map {V} (l : list (string * V)) (m : gmap string V) :
  NoDup l.*1 → foldl (fun m kv => <[kv.1 := kv.2]> m) m l = list_to_map l ∪ m.
Proof.
  revert m. induction l as [|[k v] l IH]; intros m Hnd; cbn [foldl].
  - by rewrite list_to_map_nil, (left_id_L ∅ (∪)).
  - cbn in Hnd. apply NoDup_cons in Hnd as [Hk Hnd]. rewrite IH by done.
    cbn [list_to_map foldr curry fst snd]. rewrite <- insert_union_l.
    rewrite <- insert_union_r; [done|]. by apply not_elem_of_list_to_map_1.
Qed.

Lemma Forall2_elem_of_l {A B} (P : A → B → Prop) l k x :
  Forall2 P l k → x ∈ l → ∃ y, y ∈ k ∧ P x y.
Proof.
  induction 1 as [|a b l k Hab _ IH]; intros Hin.
  - by apply elem_of_nil in Hin.
  - apply elem_of_cons in Hin as [->|Hin].
    + exists b. split; [left|done].
    + destruct (IH Hin) as (y & Hy & HP). exists y. split; [by right|done].
Qed.

(** * The builder *)

Section EngineFacts.
Context `{Strconv}.

Lemma build_entry_lookup cfg cf name val k :
  build_entry cfg cf (name, val) !! k =
  match last (filter (answers name k) cfg) with
  | Some f => Some (classify val f)
  | None => cf !! k
  end.
Proof.
  unfold build_entry. induction cfg as [|f cfg IH] using rev_ind; [done|].
  rewrite foldl_app, filter_app. cbn [foldl fst snd].
  rewrite filter_cons, filter_nil. unfold answers at 2.
  cbn [fst snd] in IH. case_decide as Hid; cbn [fst snd] in Hid.
  - rewrite decide_False by (by intros [??]). by rewrite app_nil_r.
  - destruct (decide (Key f = k)) as [Hk|Hk].
    + rewrite decide_True by done. rewrite last_snoc. subst k. by rewrite lookup_insert_eq.
    + rewrite decide_False by (by intros [??]).
      rewrite app_nil_r, lookup_insert_ne by done. done.
Qed.

Lemma build_entry_is_Some cfg cf name val k :
  is_Some (build_entry cfg cf (name, val) !! k) ↔
  is_Some (cf !! k) ∨ ∃ f, f ∈ cfg ∧ answers name k f.
Proof.
  rewrite build_entry_lookup. destruct (last _) as [f|] eqn:Hl.
  - split; [|eauto]. intros _. right. exists f.
    apply last_Some_elem_of in Hl. by apply list_elem_of_filter in Hl as [??].
  - split; [auto|]. intros [?|(f & Hf & Ha)]; [done|].
    apply last_None in Hl. assert (f ∈ filter (answers name k) cfg) as Hin
      by by apply list_elem_of_filter.
    rewrite Hl in Hin. by apply elem_of_nil in Hin.
Qed.

Lemma build_fold_is_Some cfg (l : list (string * string)) cf k :
  is_Some (foldl (build_entry cfg) cf l !! k) ↔
  is_Some (cf !! k) ∨
  ∃ name val f, (name, val) ∈ l ∧ f ∈ cfg ∧ answers name k f.
Proof.
  revert cf. induction l as [|[name val] l IH]; intros cf; cbn [foldl].
  - split; [auto|]. intros [?|(?&?&?&Hin&_)]; [done|]. by apply elem_of_nil in Hin.
  - rewrite IH, build_entry_is_Some. split.
    + intros [[?|(f&?&?)]|(n&v&f&?&?&?)]; [by left|right..].
      * exists name, val, f. split; [left|done].
      * exists n, v, f. split; [by right|done].
    + intros [?|(n&v&f&Hin&?&?)]; [by left; left|].
      apply elem_of_cons in Hin as [[= -> ->]|Hin]; [left; right; eauto|].
      right. eauto 10.
Qed.

Lemma Build_Some (fields : entries string) cfg :
  len fields ≠ 0 → cfg ≠ [] →
  BuildCustomFieldsForTransition fields cfg =
  Some (foldl (build_entry cfg) ∅ (range fields)).
Proof.
  intros Hf Hc. unfold BuildCustomFieldsForTransition.
  rewrite decide_False; [done|]. intros [?|Hl]; [done|]. by destruct cfg.
Qed.

(** One requested entry and one configured field that answers it. *)
Lemma Build_one name val f :
  identifier f = strings.ToLower name →
  BuildCustomFieldsForTransition (Some [(name, val)]) [f] =
  Some {[Key f := classify val f]}.
Proof.
  intros Hid. rewrite Build_Some by done. cbn. unfold build_entry. cbn.
  by rewrite decide_False by (intros Hne; by apply Hne).
Qed.

Lemma build_fold_lookup cfg (l : list (string * string)) cf k :
  foldl (build_entry cfg) cf l !! k =
  match last (omap (written cfg k) l) with
  | Some v => Some v
  | None => cf !! k
  end.
Proof.
  induction l as [|[name val] l IH] using rev_ind; [done|].
  rewrite foldl_app, omap_app. cbn [foldl].
  rewrite build_entry_lookup, IH.
  change (omap (written cfg k) [(name, val)])
    with (match written cfg k (name, val) with Some v => [v] | None => [] end).
  assert (written cfg k (name, val)
          = classify val <$> last (filter (answers name k) cfg)) as -> by done.
  destruct (last (filter (answers name k) cfg)) as [f|]; cbn [fmap option_fmap option_map].
  - by rewrite last_snoc.
  - by rewrite app_nil_r.
Qed.

(** C2, as amended.  The builder lowercases the requested name and compares
    it with the identifier of each configured field, and it does not stop
    at the first match: a key has an entry in the result exactly when some
    configured field with that key answers some requested name.  The value
    under a key is fixed for every request: of the requested entries that
    write under the key, the one visited last decides, and what it writes
    is its value classified by the last configured field that answers it
    under that key.  For a request of one entry that is the classification
    by the last configured field that answers under the key. *)
Theorem build_every_match_assigns
    (fields : entries string) (configuredFields : list IssueTypeField) :
  len fields ≠ 0 → configuredFields ≠ [] →
  ∃ cf, BuildCustomFieldsForTransition fields configuredFields = Some cf ∧
    (∀ k, is_Some (cf !! k) ↔
          ∃ name val f, (name, val) ∈ range fields ∧ f ∈ configuredFields ∧
                        identifier f = strings.ToLower name ∧ Key f = k) ∧
    (∀ k, cf !! k = last (omap (written configuredFields k) (range fields))) ∧
    (∀ k name val,
       written configuredFields k (name, val)
       = classify val <$> last (filter (answers name k) configuredFields)) ∧
    (∀ name val, range fields = [(name, val)] →
       ∀ k, cf !! k =
            classify val <$> last (filter (answers name k) configuredFields)).
Proof.
  intros Hf Hc. eexists. split; [by apply Build_Some|]. split; [|split; [|split]].
  - intros k. rewrite build_fold_is_Some, lookup_empty. split.
    + intros [[? [=]]|?]; done.
    + by right.
  - intros k. rewrite build_fold_lookup, lookup_empty. by destruct (last _).
  - done.
  - intros name val -> k. cbn [foldl]. rewrite build_entry_lookup, lookup_empty.
    by destruct (last _).
Qed.

(** C5.  For a field of data type number the raw value goes through
    [strconv.ParseFloat]: when it parses, the entry under the field's key is
    the number, and when it does not, the entry is the raw string as given.
    Neither [classify] nor the builder has an error result; the builder
    returns the map with that entry. *)
Theorem number_parse_or_raw_string (name val : string) (configured : IssueTypeField) :
  DataType (Schema configured) = customFieldFormatNumber →
  identifier configured = strings.ToLower name →
  let entry := match ParseFloat val with
               | Some num => ANumber num
               | None => AString val
               end in
  classify val configured = entry ∧
  BuildCustomFieldsForTransition (Some [(name, val)]) [configured]
  = Some {[Key configured := entry]}.
Proof.
  intros Hd Hid entry. assert (classify val configured = entry) as Hc.
  { unfold classify. rewrite Hd. done. }
  split; [done|]. by rewrite Build_one, Hc.
Qed.

(** C6.  For a field of data type array the value is the list of the
    pieces between the commas of the raw value, each trimmed of the white
    space around it, in their order: as [customFieldTypeOption]s when the
    item type is option, as strings otherwise.  The builder puts that list
    under the field's key, and [tags] = [bug, urgent] with item type string
    gives the list of [bug] and [urgent]. *)
Theorem array_split_and_trim (name val : string) (configured : IssueTypeField) :
  DataType (Schema configured) = customFieldFormatArray →
  identifier configured = strings.ToLower name →
  let pieces := strings.TrimSpace <$> strings.Split val "," in
  let entry := if decide (Items (Schema configured) = customFieldFormatOption)
               then AOptions (mkOption <$> pieces)
               else AStrings pieces in
  classify val configured = entry ∧
  BuildCustomFieldsForTransition (Some [(name, val)]) [configured]
  = Some {[Key configured := entry]} ∧
  ∀ key, BuildCustomFieldsForTransition (Some [("tags", "bug, urgent")])
           [mkField "Tags" key (mkSchema customFieldFormatArray "string")]
         = Some {[key := AStrings ["bug"; "urgent"]]}.
Proof.
  intros Hd Hid pieces entry. assert (classify val configured = entry) as Hc.
  { unfold classify, entry, pieces. rewrite Hd.
    rewrite <- (Split_TrimSpace_pieces val).
    rewrite (foldl_snoc_fmap (fun p => mkOption (strings.TrimSpace p))).
    rewrite (foldl_snoc_fmap strings.TrimSpace).
    rewrite <- list_fmap_compose. reflexivity. }
  split; [done|]. split; [by rewrite Build_one, Hc|].
  intros key. by rewrite Build_one.
Qed.

(** C9.  For a field of data type array a raw value that is empty or all
    white space gives a list of one element, the empty string (the option
    with the empty value when the item type is option), and not the empty
    list: the split comes first, and the empty string splits into one
    empty piece. *)
Theorem array_of_blank_value (val : string) (configured : IssueTypeField) :
  DataType (Schema configured) = customFieldFormatArray →
  all_space val = true →
  strings.Split (strings.TrimSpace val) "," = [EmptyString] ∧
  classify val configured =
    if decide (Items (Schema configured) = customFieldFormatOption)
    then AOptions [mkOption EmptyString]
    else AStrings [EmptyString].
Proof.
  intros Hd Hs. rewrite (TrimSpace_all_space val Hs). split; [done|].
  unfold classify. rewrite Hd, (TrimSpace_all_space val Hs). reflexivity.
Qed.

End EngineFacts.

(** Two configured fields of one identifier, and two requested names that
    both reach them: each key has the value of the name visited last. *)
Lemma build_every_match_assigns_witness :
  ∃ cf,
    BuildCustomFieldsForTransition
      (Some [("ENV", "prod"); ("env", "test"); ("story-points", "5")])
      [env_first; env_second; story_points] = Some cf ∧
    cf !! "customfield_1" = Some (AString "test") ∧
    cf !! "customfield_2" = Some (AString "test") ∧
    cf !! "customfield_10001" = Some (ANumber 5%N) ∧
    cf !! "customfield_3" = None.
Proof.
  destruct (build_every_match_assigns
              (Some [("ENV", "prod"); ("env", "test"); ("story-points", "5")])
              [env_first; env_second; story_points])
    as (cf & Hcf & _ & Hval & _); [vm_compute; lia | done |].
  exists cf. split; [exact Hcf|]. rewrite !Hval. repeat split.
Defined.

(** Story points of 5, requested with capitals. *)
Lemma number_parse_or_raw_string_witness :
  DataType (Schema story_points) = customFieldFormatNumber ∧
  identifier story_points = strings.ToLower "Story-Points" ∧
  classify "5" story_points = ANumber 5%N ∧
  BuildCustomFieldsForTransition (Some [("Story-Points", "5")]) [story_points]
  = Some {[ "customfield_10001" := ANumber 5%N ]}.
Proof.
  split; [reflexivity|]. split; [reflexivity|].
  exact (number_parse_or_raw_string "Story-Points" "5" story_points eq_refl eq_refl).
Defined.

(** Two options with white space around the first. *)
Lemma array_split_and_trim_witness :
  DataType (Schema (tags "option")) = customFieldFormatArray ∧
  identifier (tags "option") = strings.ToLower "tags" ∧
  classify " a ,b" (tags "option") = AOptions [mkOption "a"; mkOption "b"].
Proof.
  split; [reflexivity|]. split; [reflexivity|].
  exact (proj1 (array_split_and_trim "tags" " a ,b" (tags "option") eq_refl eq_refl)).
Defined.

(** Three spaces for a list of strings. *)
Lemma array_of_blank_value_witness :
  DataType (Schema (tags "string")) = customFieldFormatArray ∧
  all_space "   " = true ∧
  classify "   " (tags "string") = AStrings [EmptyString].
Proof.
  split; [reflexivity|]. split; [reflexivity|].
  exact (proj2 (array_of_blank_value "   " (tags "string") eq_refl eq_refl)).
Defined.

(** C2, the claim as stated fails: of two configured fields with one
    identifier and two keys, the first that matches the requested name is
    [env_first], and the key of [env_second] has an entry all the same. *)
Lemma first_match_is_not_alone :
  let configuredFields := [env_first; env_second] in
  list_find (fun f => identifier f = strings.ToLower "ENV") configuredFields
    = Some (0, env_first) ∧
  Key env_second ≠ Key env_first ∧
  BuildCustomFieldsForTransition (Some [("ENV", "prod")]) configuredFields
    = Some {[ "customfield_1" := AString "prod"; "customfield_2" := AString "prod" ]}.
Proof. split; [|split]; [reflexivity | discriminate | reflexivity]. Qed.

(** The repository's tests of the builder, run on the embedding. *)
Example TestBuildCustomFieldsForTransition :
  BuildCustomFieldsForTransition
    (Some [("story-points", "5"); ("environment", "production"); ("tags", "bug,urgent")])
    [story_points; environment; tags EmptyString]
  = Some {[ "customfield_10001" := ANumber 5%N;
            "customfield_10002" := AOption (mkOption "production");
            "customfield_10003" := AStrings ["bug"; "urgent"] ]}.
Proof. reflexivity. Qed.

Example TestBuildCustomFieldsForTransitionWithEmptyFields :
  BuildCustomFieldsForTransition (Some []) [] = None ∧
  BuildCustomFieldsForTransition None [] = None.
Proof. split; reflexivity. Qed.

(** * The two validators *)

(** C3, at the input where the code departs from the claim.  The request
    spells the name with capitals.  The strict validator and the builder
    lowercase it and find the configured field; the lenient check looks the
    name up as given, finds nothing, and warns that the field will be
    ignored, which the builder then does not do. *)
Theorem lenient_check_does_not_lowercase :
  let fields := Some [("Story-Points", "5")] in
  let configuredFields := [story_points] in
  invalidCustomFields fields configuredFields = ["Story-Points"] ∧
  ValidateCustomFields fields configuredFields = Some (warning_text ["Story-Points"]) ∧
  ValidateAndFilterCustomFields fields configuredFields configuredFields "Story"
    = (Some {[ "Story-Points" := "5" ]}, None) ∧
  BuildCustomFieldsForTransition fields configuredFields
    = Some {[ "customfield_10001" := ANumber 5%N ]}.
Proof. repeat split; reflexivity. Qed.

Lemma configuredMap_lookup cfg i :
  configuredMap cfg !! i = Key <$> last (filter (fun f => identifier f = i) cfg).
Proof.
  unfold configuredMap. induction cfg as [|f cfg IH] using rev_ind; [done|].
  rewrite foldl_app, filter_app, filter_cons, filter_nil. cbn [foldl].
  case_decide as Hid.
  - subst i. by rewrite last_snoc, lookup_insert_eq.
  - by rewrite app_nil_r, lookup_insert_ne.
Qed.

Lemma availableMap_lookup av k :
  availableMap av !! k = last (filter (fun f => Key f = k) av).
Proof.
  unfold availableMap. induction av as [|f av IH] using rev_ind; [done|].
  rewrite foldl_app, filter_app, filter_cons, filter_nil. cbn [foldl].
  case_decide as Hid.
  - subst k. by rewrite last_snoc, lookup_insert_eq.
  - by rewrite app_nil_r, lookup_insert_ne.
Qed.

Lemma scan_step_judge av cfg st name val :
  scan_step av cfg st (name, val) =
  match judge av cfg name with
  | Kept => mkScan (<[name := val]> (validFields st)) (invalidFields st) (invalidFieldKeys st)
  | Unknown => mkScan (validFields st) (invalidFields st ++ [name]) (invalidFieldKeys st)
  | Unavailable k =>
      mkScan (validFields st) (invalidFields st ++ [name]) (invalidFieldKeys st ++ [k])
  end.
Proof.
  unfold scan_step, judge. cbn [fst snd].
  destruct (configuredMap cfg !! strings.ToLower name) as [k|]; [|done].
  by destruct (availableMap av !! k).
Qed.

Lemma scan_fold av cfg (l : list (string * string)) st :
  foldl (scan_step av cfg) st l =
  mkScan
    (foldl (fun m kv => <[kv.1 := kv.2]> m) (validFields st)
           (filter (fun kv => judge av cfg kv.1 = Kept) l))
    (invalidFields st ++ filter (fun name => judge av cfg name ≠ Kept) l.*1)
    (invalidFieldKeys st ++ omap (fun kv => unavailable_key (judge av cfg kv.1)) l).
Proof.
  revert st. induction l as [|[name val] l IH]; intros [vf inv keys].
  - cbn. by rewrite !app_nil_r.
  - cbn [foldl]. rewrite IH, scan_step_judge. rewrite fmap_cons, !filter_cons.
    cbn [omap fst snd validFields invalidFields invalidFieldKeys].
    destruct (judge av cfg name) eqn:Hj; repeat case_decide; try done;
      cbn; rewrite ?Hj; cbn; by rewrite <- ?app_assoc.
Qed.

Lemma scan_requested_eq requested av cfg :
  scan_requested requested av cfg =
  mkScan
    (foldl (fun m kv => <[kv.1 := kv.2]> m) ∅
           (filter (fun kv => judge av cfg kv.1 = Kept) (range requested)))
    (filter (fun name => judge av cfg name ≠ Kept) (range requested).*1)
    (omap (fun kv => unavailable_key (judge av cfg kv.1)) (range requested)).
Proof. unfold scan_requested. by rewrite scan_fold. Qed.

Lemma judge_Unknown av cfg name : judge av cfg name = Unknown ↔ no_schema cfg name.
Proof.
  unfold judge, no_schema. rewrite configuredMap_lookup.
  destruct (last _) as [f|] eqn:Hl; cbn.
  - split.
    + by destruct (availableMap av !! Key f).
    + intros Hno. apply last_Some_elem_of, list_elem_of_filter in Hl as [Hid Hin].
      by destruct (Hno f Hin).
  - split; [|done]. intros _. exact (proj1 (last_filter_None _ _) Hl).
Qed.

Lemma judge_Unavailable av cfg name k :
  judge av cfg name = Unavailable k ↔
  ∃ f, configured_for cfg name = Some f ∧ Key f = k ∧ ∀ g, g ∈ av → Key g ≠ k.
Proof.
  unfold judge, configured_for. rewrite configuredMap_lookup.
  destruct (last (filter _ cfg)) as [f|] eqn:Hl; cbn.
  - rewrite availableMap_lookup. destruct (last (filter _ av)) as [g|] eqn:Hg.
    + split; [done|]. intros (f' & [= <-] & <- & Hno).
      apply last_Some_elem_of, list_elem_of_filter in Hg as [Hk Hin].
      by destruct (Hno g Hin).
    + pose proof (proj1 (last_filter_None _ _) Hg) as Hno. split.
      * intros [= <-]. by exists f.
      * by intros (f' & [= <-] & <- & _).
  - split; [done|]. by intros (? & [=] & _).
Qed.

Lemma judge_invalid av cfg name : judge av cfg name ≠ Kept ↔ invalid_name av cfg name.
Proof.
  unfold invalid_name, off_screen. split.
  - intros Hj. destruct (judge av cfg name) as [| |k] eqn:Hk; [done| |].
    + left. by apply (judge_Unknown av).
    + right. apply judge_Unavailable in Hk as (f & Hf & <- & Hno). eauto.
  - intros [Hno|(f & Hf & Hno)] Hj.
    + apply (judge_Unknown av) in Hno. congruence.
    + assert (judge av cfg name = Unavailable (Key f)) as Hu
        by (apply judge_Unavailable; eauto).
      congruence.
Qed.

Lemma availableCustomFields_filter av :
  availableCustomFields av =
  identifier <$> filter (fun g => strings.HasPrefix (Key g) "customfield_" = true
                                  ∧ Name g ≠ EmptyString) av.
Proof.
  unfold availableCustomFields.
  enough (∀ init, foldl (fun acc field =>
             if strings.HasPrefix (Key field) "customfield_"
                && negb (bool_decide (Name field = EmptyString))
             then acc ++ [identifier field] else acc) init av
          = init ++ (identifier <$> filter (fun g =>
               strings.HasPrefix (Key g) "customfield_" = true ∧ Name g ≠ EmptyString) av))
    as Hgen by apply (Hgen []).
  induction av as [|g av IH]; intros init; cbn [foldl].
  - by rewrite app_nil_r.
  - rewrite IH, filter_cons.
    destruct (strings.HasPrefix (Key g) "customfield_") eqn:Hp; cbn [andb].
    + case_bool_decide as Hn; cbn [negb].
      * by rewrite decide_False by (by intros [_ ?]).
      * rewrite decide_True by done. by rewrite fmap_cons, <- app_assoc.
    + by rewrite decide_False by (by intros [? _]).
Qed.

(** C1.  Strict validation is all or nothing.  For a request that is not
    empty: when some requested name has no configured field with its
    lowercased form as identifier, or resolves to a key that no available
    field has, the filtered map is nil and the error is not; otherwise the
    error is nil and the filtered map holds the requested entries, all of
    them and nothing else. *)
Theorem strict_validation_all_or_nothing
    (requested : entries string) (available configuredFields : list IssueTypeField)
    (issueTypeName : string) :
  wf_entries requested → len requested ≠ 0 →
  let r := ValidateAndFilterCustomFields requested available configuredFields
             issueTypeName in
  ((∃ name, name ∈ (range requested).*1 ∧ invalid_name available configuredFields name) →
     r.1 = None ∧ r.2 ≠ None) ∧
  ((∀ name, name ∈ (range requested).*1 → ¬ invalid_name available configuredFields name) →
     ∃ filtered, r = (Some filtered, None) ∧
       ∀ name value, filtered !! name = Some value ↔ (name, value) ∈ range requested).
Proof.
  intros Hwf Hlen r. subst r. unfold ValidateAndFilterCustomFields.
  rewrite decide_False by done. rewrite scan_requested_eq.
  cbn [invalidFields validFields]. split.
  - intros (name & Hin & Hinv). apply judge_invalid in Hinv.
    assert (name ∈ filter (fun name => judge available configuredFields name ≠ Kept)
                     (range requested).*1) as Hf by by apply list_elem_of_filter.
    destruct (filter _ _) as [|x l] eqn:Hl; [by apply elem_of_nil in Hf|].
    rewrite decide_True by (cbn; lia). done.
  - intros Hall.
    assert (filter (fun name => judge available configuredFields name ≠ Kept)
                   (range requested).*1 = []) as ->.
    { destruct (filter _ _) as [|x l] eqn:Hl; [done|].
      assert (x ∈ filter (fun name => judge available configuredFields name ≠ Kept)
                    (range requested).*1) as [Hx Hin]%list_elem_of_filter
        by (rewrite Hl; left).
      apply judge_invalid in Hx. by destruct (Hall x Hin). }
    rewrite decide_False by (cbn; lia).
    assert (filter (fun kv : string * string => judge available configuredFields kv.1 = Kept)
                   (range requested) = range requested) as ->.
    { apply filter_all. intros [name value] Hin. cbn.
      destruct (decide (judge available configuredFields name = Kept)) as [|Hj]; [done|].
      apply judge_invalid in Hj. destruct (Hall name). { by apply (list_elem_of_fmap_2 fst) in Hin. }
      done. }
    eexists. split; [reflexivity|]. intros name value.
    rewrite foldl_insert_list_to_map by done. rewrite (right_id_L ∅ (∪)).
    symmetry. by apply elem_of_list_to_map.
Qed.

(** A request that passes the strict validation. *)
Lemma strict_validation_all_or_nothing_witness :
  wf_entries (Some [("story-points", "5")]) ∧
  len (Some [("story-points", "5")]) ≠ 0 ∧
  ∃ filtered,
    ValidateAndFilterCustomFields (Some [("story-points", "5")])
      [story_points] [story_points] "Story" = (Some filtered, None) ∧
    filtered !! "story-points" = Some "5".
Proof.
  assert (wf_entries (Some [("story-points", "5")])) as Hwf.
  { unfold wf_entries. cbn. apply NoDup_singleton. }
  assert (len (Some [("story-points", "5")]) ≠ 0) as Hlen by (cbn; lia).
  split; [exact Hwf|]. split; [exact Hlen|].
  destruct (strict_validation_all_or_nothing (Some [("story-points", "5")])
              [story_points] [story_points] "Story" Hwf Hlen) as [_ Hgood].
  destruct Hgood as (filtered & Hr & Hin).
  - intros name Hname Hinv. apply judge_invalid in Hinv. apply Hinv.
    apply list_elem_of_singleton in Hname as ->. reflexivity.
  - exists filtered. split; [exact Hr|]. apply Hin. left.
Defined.

Lemma occurs_errMsg_issueType itn st av : occurs itn (errMsg itn st av).
Proof. unfold errMsg. repeat case_decide; find_occurrence. Qed.

Lemma occurs_errMsg_invalid itn st av name :
  name ∈ invalidFields st → occurs name (errMsg itn st av).
Proof. intros Hin. unfold errMsg. repeat case_decide; find_occurrence. Qed.

Lemma occurs_errMsg_key itn st av k :
  k ∈ invalidFieldKeys st → occurs k (errMsg itn st av).
Proof.
  intros Hin. unfold errMsg. rewrite (decide_True _ _ (length_pos_elem _ _ Hin)).
  case_decide; find_occurrence.
Qed.

Lemma occurs_errMsg_available itn st av x :
  x ∈ availableCustomFields av → occurs x (errMsg itn st av).
Proof.
  intros Hin. unfold errMsg. rewrite (decide_True _ _ (length_pos_elem _ _ Hin)).
  find_occurrence.
Qed.

(** C7, as amended.  When strict validation fails, the message it builds
    and hands to [fmt.Errorf] names the issue type, lists every invalid
    requested name, lists the resolved key of every requested name that is
    configured and not available, and lists the identifier (the normalized
    name, not the key) of every available field whose key starts with
    [customfield_] and whose name is not empty.  That message is the text of
    the error whenever it holds no ['%']. *)
Theorem strict_diagnostic_content
    (requested : entries string) (available configuredFields : list IssueTypeField)
    (issueTypeName : string) (err : error) :
  (ValidateAndFilterCustomFields requested available configuredFields issueTypeName).2
    = Some err →
  ∃ msg, err = Errorf0 msg ∧
    occurs issueTypeName msg ∧
    (∀ name, name ∈ (range requested).*1 →
       invalid_name available configuredFields name → occurs name msg) ∧
    (∀ name f, name ∈ (range requested).*1 →
       configured_for configuredFields name = Some f →
       (∀ g, g ∈ available → Key g ≠ Key f) → occurs (Key f) msg) ∧
    (∀ g, g ∈ available →
       strings.HasPrefix (Key g) "customfield_" = true → Name g ≠ EmptyString →
       occurs (identifier g) msg) ∧
    (has_byte percent msg = false → err = ErrText msg).
Proof.
  unfold ValidateAndFilterCustomFields. case_decide; [done|].
  case_decide as Hbad; [|done]. cbn [snd]. intros [= <-].
  set (st := scan_requested requested available configuredFields).
  exists (errMsg issueTypeName st available).
  split; [done|]. split; [apply occurs_errMsg_issueType|].
  assert (st = scan_requested requested available configuredFields) as Hst by done.
  rewrite scan_requested_eq in Hst.
  split; [|split; [|split]].
  - intros name Hin Hinv. apply occurs_errMsg_invalid. rewrite Hst. cbn.
    apply list_elem_of_filter. split; [by apply judge_invalid|done].
  - intros name f Hin Hf Hoff. apply occurs_errMsg_key. rewrite Hst. cbn.
    apply list_elem_of_fmap in Hin as ([name' value] & -> & Hin).
    apply list_elem_of_omap. exists (name', value). split; [done|]. cbn.
    assert (judge available configuredFields name' = Unavailable (Key f)) as ->
      by (apply judge_Unavailable; eauto).
    done.
  - intros g Hin Hp Hn. apply occurs_errMsg_available.
    rewrite availableCustomFields_filter. apply list_elem_of_fmap_2.
    by apply list_elem_of_filter.
  - intros Hfree. unfold Errorf0. by rewrite Hfree.
Qed.

(** A request for a field that is not configured. *)
Lemma strict_diagnostic_content_witness :
  ∃ err,
    (ValidateAndFilterCustomFields (Some [("unknown", "x")])
       [environment] [story_points] "Bug").2 = Some err ∧
    ∃ msg, err = ErrText msg ∧ occurs "unknown" msg ∧ occurs "environment" msg.
Proof.
  eexists. split; [reflexivity|].
  destruct (strict_diagnostic_content (Some [("unknown", "x")])
              [environment] [story_points] "Bug" _ eq_refl)
    as (msg & Herr & _ & Hnames & _ & Hshown & Htext).
  exists msg. split; [|split].
  - apply Htext. unfold Errorf0 in Herr.
    destruct (has_byte percent msg); [discriminate Herr | reflexivity].
  - apply Hnames; [left|]. apply judge_invalid. discriminate.
  - apply (Hshown environment); [left | reflexivity | discriminate].
Defined.

(** C7, the claim as stated fails: the key of an available custom field is
    not in the message, which shows its identifier. *)
Lemma diagnostic_omits_available_keys :
  ∃ msg,
    (ValidateAndFilterCustomFields (Some [("unknown", "x")])
       [environment] [story_points] "Bug").2 = Some (ErrText msg) ∧
    environment ∈ [environment] ∧
    strings.HasPrefix (Key environment) "customfield_" = true ∧
    occurs (identifier environment) msg ∧
    ¬ occurs (Key environment) msg.
Proof.
  eexists. split; [reflexivity|]. split; [left|]. split; [reflexivity|]. split.
  - apply occursb_occurs. vm_compute. reflexivity.
  - intros Hocc%occursb_occurs. vm_compute in Hocc. discriminate Hocc.
Qed.

(** ** Messages without a verb *)

Lemma has_byte_app c (a b : string) :
  has_byte c (a +:+ b) = has_byte c a || has_byte c b.
Proof.
  induction a as [|x a IH]; [done|].
  rewrite string_app_cons. cbn [has_byte]. by rewrite IH, orb_assoc.
Qed.

Lemma plain_app a b : plain a → plain b → plain (a +:+ b).
Proof. unfold plain. intros Ha Hb. by rewrite has_byte_app, Ha, Hb. Qed.

Lemma plain_Join l sep : Forall plain l → plain sep → plain (strings.Join l sep).
Proof.
  intros Hl Hsep. induction Hl as [|x l Hx Hl IH]; [done|].
  destruct l as [|y l]; [done|].
  change (plain (x +:+ sep +:+ strings.Join (y :: l) sep)).
  by repeat apply plain_app.
Qed.

Lemma lower_percent c : strings.lower c = percent ↔ c = percent.
Proof. destruct c as [[] [] [] [] [] [] [] []]; vm_compute; split; congruence. Qed.

Lemma plain_ToLower s : plain s → plain (strings.ToLower s).
Proof.
  unfold plain. induction s as [|c s IH]; [done|]. cbn [has_byte strings.ToLower].
  intros [Hc Hs]%orb_false_elim. rewrite (IH Hs), orb_false_r.
  apply bool_decide_eq_false. apply bool_decide_eq_false in Hc.
  by rewrite lower_percent.
Qed.

Lemma plain_TrimLeft s : plain s → plain (strings.TrimLeft s).
Proof.
  unfold plain. induction s as [|c s IH]; [done|]. cbn [strings.TrimLeft].
  destruct (Ascii.is_space c); [|done]. cbn [has_byte].
  intros [_ Hs]%orb_false_elim. auto.
Qed.

Lemma plain_TrimRight s : plain s → plain (strings.TrimRight s).
Proof.
  unfold plain. induction s as [|c s IH]; [done|]. rewrite TrimRight_cons.
  cbn [has_byte]. intros [Hc Hs]%orb_false_elim.
  destruct (all_space s).
  - destruct (Ascii.is_space c); [done|]. cbn [has_byte]. by rewrite Hc.
  - cbn [has_byte]. by rewrite Hc, IH.
Qed.

Lemma prefix_space c s :
  String.prefix " " (String c s) = bool_decide (c = " "%char).
Proof.
  cbn [String.prefix]. destruct (ascii_dec " " c) as [<-|Hne].
  - by destruct s.
  - by rewrite bool_decide_eq_false_2.
Qed.

Lemma plain_spaces_to_hyphens s : plain s → plain (strings.ReplaceAll s " " "-").
Proof.
  unfold plain, strings.ReplaceAll. induction s as [|c s IH]; [done|].
  cbn [has_byte strings.replace_from String.length Nat.sub].
  intros [Hc Hs]%orb_false_elim. rewrite prefix_space.
  change (String.length " " - 1)%nat with 0%nat.
  destruct (bool_decide (c = " "%char)).
  - rewrite string_app_cons, string_app_nil_l. cbn [has_byte]. by rewrite (IH Hs).
  - cbn [has_byte]. by rewrite Hc, (IH Hs).
Qed.

Lemma plain_identifier f : plain (Name f) → plain (identifier f).
Proof.
  intros Hn. unfold identifier.
  by apply plain_spaces_to_hyphens, plain_ToLower, plain_TrimRight, plain_TrimLeft.
Qed.

Lemma plain_errMsg itn st av :
  plain itn → Forall plain (invalidFields st) → Forall plain (invalidFieldKeys st) →
  Forall (fun g => plain (Name g)) av →
  plain (errMsg itn st av).
Proof.
  intros Hitn Hinv Hkeys Hav. unfold errMsg.
  assert (Forall plain (availableCustomFields av)) as Hshown.
  { rewrite availableCustomFields_filter. apply Forall_fmap, Forall_forall.
    intros g [_ Hg]%list_elem_of_filter. apply plain_identifier.
    by apply (proj1 (Forall_forall _ _) Hav). }
  repeat case_decide;
    repeat first [ apply plain_app | apply plain_Join | assumption | reflexivity ].
Qed.

(** For a request, an issue type, configured keys and available names
    without ['%'], the message of a failed strict validation is the text
    of the error, as it is. *)
Lemma strict_error_text requested av cfg itn err :
  plain itn → Forall plain (range requested).*1 →
  Forall (fun f => plain (Key f)) cfg → Forall (fun g => plain (Name g)) av →
  (ValidateAndFilterCustomFields requested av cfg itn).2 = Some err →
  err = ErrText (errMsg itn (scan_requested requested av cfg) av).
Proof.
  intros Hitn Hnames Hcfg Hav. unfold ValidateAndFilterCustomFields.
  case_decide; [done|]. case_decide; [|done]. cbn [snd]. intros [= <-].
  unfold Errorf0.
  enough (plain (errMsg itn (scan_requested requested av cfg) av)) as -> by done.
  apply plain_errMsg; [done| | |done]; rewrite scan_requested_eq; cbn.
  - apply Forall_forall. intros name [_ Hin]%list_elem_of_filter.
    by apply (proj1 (Forall_forall _ _) Hnames).
  - apply Forall_forall. intros k ([name value] & Hin & Hk)%list_elem_of_omap.
    cbn in Hk. destruct (judge av cfg name) as [| |k'] eqn:Hj; try done.
    injection Hk as ->. apply judge_Unavailable in Hj as (f & Hf & <- & _).
    apply last_Some_elem_of, list_elem_of_filter in Hf as [_ Hf].
    by apply (proj1 (Forall_forall _ _) Hcfg).
Qed.

(** ** The lenient check against the strict validator *)

Lemma fieldsMap_lookup cfg i :
  fieldsMap cfg !! i = Name <$> last (filter (fun f => identifier f = i) cfg).
Proof.
  unfold fieldsMap. induction cfg as [|f cfg IH] using rev_ind; [done|].
  rewrite foldl_app, filter_app, filter_cons, filter_nil. cbn [foldl].
  case_decide as Hid.
  - subst i. by rewrite last_snoc, lookup_insert_eq.
  - by rewrite app_nil_r, lookup_insert_ne.
Qed.

(** The names the lenient check reports: those that, as given, are the
    identifier of no configured field. *)
Lemma invalidCustomFields_filter fields cfg :
  invalidCustomFields fields cfg =
  filter (fun key => Forall (fun f => identifier f ≠ key) cfg) (range fields).*1.
Proof.
  unfold invalidCustomFields.
  enough (∀ init, foldl (fun acc (kv : string * string) =>
              match fieldsMap cfg !! kv.1 with
              | Some _ => acc
              | None => acc ++ [kv.1]
              end) init (range fields)
          = init ++ filter (fun key => Forall (fun f => identifier f ≠ key) cfg) (range fields).*1)
    as Hgen by apply (Hgen []).
  induction (range fields) as [|[key value] l IH]; intros init; cbn [foldl fst].
  - by rewrite app_nil_r.
  - rewrite IH, fmap_cons, filter_cons, fieldsMap_lookup. cbn [fst].
    destruct (last _) as [f|] eqn:Hl; cbn.
    + apply last_Some_elem_of, list_elem_of_filter in Hl as [Hid Hin].
      rewrite decide_False; [done|]. intros Hno.
      by destruct (proj1 (Forall_forall _ _) Hno f Hin).
    + rewrite decide_True
        by (apply Forall_forall; exact (proj1 (last_filter_None _ _) Hl)).
      by rewrite <- app_assoc.
Qed.

(** On requested names that are in lower case already, the lenient check
    reports the names that the strict validator finds unconfigured. *)
Lemma lenient_agrees_on_lowercase fields av cfg :
  Forall (fun name => strings.ToLower name = name) (range fields).*1 →
  invalidCustomFields fields cfg =
  filter (fun name => judge av cfg name = Unknown) (range fields).*1.
Proof.
  intros Hlow. rewrite invalidCustomFields_filter.
  induction Hlow as [|name l Hname Hl IH]; [done|].
  rewrite !filter_cons, IH.
  destruct (decide (judge av cfg name = Unknown)) as [Hj|Hj].
  - rewrite decide_True; [done|]. apply judge_Unknown in Hj.
    unfold no_schema in Hj. rewrite Hname in Hj. by apply Forall_forall.
  - rewrite decide_False; [done|]. intros Hno. apply Hj, judge_Unknown.
    unfold no_schema. rewrite Hname. by apply Forall_forall.
Qed.

(** * The fields of an issue type *)

Section ClientFacts.
Import createmeta.
Variable GetV2 : string → option Response * option error.
Variable Decode : string → CreateMetaResponse * option error.

Abbreviation fetch project :=
  (GetCreateMeta GetV2 Decode (mkRequest project EmptyString "projects.issuetypes.fields")).

(** The fetch never gives a nil response together with a nil error. *)
Lemma GetCreateMeta_not_both_nil req : GetCreateMeta GetV2 Decode req ≠ (None, None).
Proof.
  unfold GetCreateMeta. destruct (GetV2 _) as [[res|] [err|]]; try done.
  case_decide; [done|]. by destruct (Decode _).
Qed.

Lemma find_issue_type_panics project issueTypeID its :
  find_issue_type project issueTypeID its = Panics ↔
  nil_before_match issueTypeID its.
Proof.
  unfold nil_before_match. induction its as [|[it|] its IH]; cbn [find_issue_type].
  - split; [done|]. intros (before & after & Heq & _). by destruct before.
  - case_decide as Hid.
    + split; [done|]. intros ([|x before] & after & Heq & Hb); [done|].
      injection Heq as <- _. destruct (Hb (Some it)) as (it' & [= <-] & Hne); [left|done].
    + rewrite IH. split.
      * intros (before & after & -> & Hb). exists (Some it :: before), after.
        split; [done|]. intros x [-> | Hx]%elem_of_cons; [eauto|by apply Hb].
      * intros ([|x before] & after & Heq & Hb); [done|]. injection Heq as <- ->.
        exists before, after. split; [done|]. intros y Hy. apply Hb. by right.
  - split; [|done]. intros _. exists [], its. split; [done|]. by intros ? ?%elem_of_nil.
Qed.

Lemma find_issue_type_outcomes project issueTypeID its :
  (find_issue_type project issueTypeID its = Returns None (Some (not_found project issueTypeID))
   ∧ ∀ x, x ∈ its → ∃ it, x = Some it ∧ ID (issueType it) ≠ issueTypeID)
  ∨ (∃ before it after,
       its = before ++ Some it :: after ∧
       (∀ x, x ∈ before → ∃ it', x = Some it' ∧ ID (issueType it') ≠ issueTypeID) ∧
       ID (issueType it) = issueTypeID ∧
       find_issue_type project issueTypeID its = Returns (Some (field_values it)) None)
  ∨ (find_issue_type project issueTypeID its = Panics
     ∧ nil_before_match issueTypeID its).
Proof.
  induction its as [|[it|] its IH].
  - left. split; [done|]. by intros x ?%elem_of_nil.
  - cbn [find_issue_type]. case_decide as Hid.
    + right. left. exists [], it, its. split; [done|]. split; [by intros ? ?%elem_of_nil|].
      split; [done|]. unfold field_values.
      by rewrite (foldl_snoc_fmap snd), app_nil_l.
    + destruct IH as [[Hr Hno]|[(before & it' & after & -> & Hbefore & Hid' & Hr)
                               |[Hr (before & after & -> & Hbefore)]]].
      * left. split; [done|]. intros x [->|Hin]%elem_of_cons; eauto.
      * right. left. exists (Some it :: before), it', after. split; [done|].
        split; [|done]. intros x [->|Hin]%elem_of_cons; eauto.
      * right. right. split; [done|]. exists (Some it :: before), after.
        split; [done|]. intros x [->|Hin]%elem_of_cons; eauto.
  - right. right. split; [done|]. exists [], its. split; [done|].
    by intros ? ?%elem_of_nil.
Qed.

(** C10, as amended.  [GetIssueTypeFields] has three outcomes, and which
    one is decided by the fetch and by the issue types of the first project
    alone.  It returns a non-nil error exactly when the fetch of the create
    metadata fails, or the response has no project, or the issue types of
    the first project are all non-nil and none has the given ID.  It panics
    exactly when the fetch went well, there is a project, and among the
    issue types of the first project a nil pointer stands before any issue
    type with the given ID.  Otherwise it returns fields with a nil error:
    the field values of the first issue type of the first project with the
    given ID, one for each entry of its field map. *)
Theorem GetIssueTypeFields_outcomes (project issueTypeID : string) :
  let r := GetIssueTypeFields GetV2 Decode project issueTypeID in
  (is_error r ↔
     (fetch project).2 ≠ None
     ∨ (∃ meta, fetch project = (Some meta, None) ∧ MetaProjects meta = [])
     ∨ (∃ meta first others,
          fetch project = (Some meta, None) ∧ MetaProjects meta = first :: others ∧
          ∀ x, x ∈ IssueTypes first →
               ∃ it, x = Some it ∧ ID (issueType it) ≠ issueTypeID)) ∧
  (r = Panics ↔
     ∃ meta first others,
       fetch project = (Some meta, None) ∧ MetaProjects meta = first :: others ∧
       nil_before_match issueTypeID (IssueTypes first)) ∧
  (∀ meta first others,
     fetch project = (Some meta, None) → MetaProjects meta = first :: others →
     r = find_issue_type project issueTypeID (IssueTypes first)) ∧
  (∀ fields err, r = Returns (Some fields) err →
     err = None ∧
     ∃ meta first others before it after,
       fetch project = (Some meta, None) ∧ MetaProjects meta = first :: others ∧
       IssueTypes first = before ++ Some it :: after ∧
       (∀ x, x ∈ before → ∃ it', x = Some it' ∧ ID (issueType it') ≠ issueTypeID) ∧
       ID (issueType it) = issueTypeID ∧
       fields = field_values it) ∧
  (is_error r ∨ r = Panics ∨ ∃ fields, r = Returns (Some fields) None).
Proof.
  intros r. subst r. unfold GetIssueTypeFields, is_error.
  pose proof (GetCreateMeta_not_both_nil
                (mkRequest project EmptyString "projects.issuetypes.fields")) as Hboth.
  destruct (fetch project) as [[meta|] [err|]] eqn:Hfetch; try done.
  - (* the decoder failed *)
    split; [|split; [|split; [|split]]].
    + split; [intros _; by left | intros _; eauto].
    + split; [done|]. by intros (? & ? & ? & [=] & _).
    + by intros ??? [=].
    + by intros ?? [=].
    + left. eauto.
  - destruct (MetaProjects meta) as [|first others] eqn:Hprojects.
    + split; [|split; [|split; [|split]]].
      * split; [|intros _; eauto]. intros _. right. left. by exists meta.
      * split; [done|]. intros (? & ? & ? & [= <-] & Hp & _). congruence.
      * intros ??? [= <-] Hp. congruence.
      * by intros ?? [=].
      * left. eauto.
    + assert (∀ m f o, (Some meta, @None error) = (Some m, None) →
                       MetaProjects m = f :: o → f = first) as Hsame.
      { intros m f o [= <-] Hp. rewrite Hprojects in Hp. by injection Hp as <- _. }
      destruct (find_issue_type_outcomes project issueTypeID (IssueTypes first))
        as [[Hr Hno]|[(before & it & after & Hits & Hbefore & Hid & Hr)
                     |[Hr Hnil]]]; rewrite Hr.
      * split; [|split; [|split; [|split]]].
        -- split; [|intros _; eauto]. intros _. right. right. by exists meta, first, others.
        -- split; [done|]. intros (m & f & o & Hm & Hp & (bf & af & Heq & Hbf)).
           rewrite (Hsame m f o Hm Hp) in Heq.
           destruct (Hno None) as (? & [=] & _). rewrite Heq. apply elem_of_app. right. left.
        -- intros m f o Hm Hp. by rewrite (Hsame m f o Hm Hp).
        -- by intros ?? [=].
        -- left. eauto.
      * split; [|split; [|split; [|split]]].
        -- split; [by intros [? [=]]|].
           intros [Hf|[(m & [= <-] & Hp)|(m & f & o & Hm & Hp & Hno)]].
           ++ by destruct Hf.
           ++ congruence.
           ++ rewrite (Hsame m f o Hm Hp) in Hno.
              destruct (Hno (Some it)) as (it' & [= <-] & Hne); [|done].
              rewrite Hits. apply elem_of_app. right. left.
        -- split; [done|]. intros (m & f & o & Hm & Hp & Hn).
           rewrite (Hsame m f o Hm Hp) in Hn.
           apply find_issue_type_panics with (project := project) in Hn. congruence.
        -- intros m f o Hm Hp. by rewrite (Hsame m f o Hm Hp).
        -- intros fields err [= <- <-]. split; [done|].
           by exists meta, first, others, before, it, after.
        -- right. right. eauto.
      * split; [|split; [|split; [|split]]].
        -- split; [by intros [? [=]]|].
           intros [Hf|[(m & [= <-] & Hp)|(m & f & o & Hm & Hp & Hno)]].
           ++ by destruct Hf.
           ++ congruence.
           ++ rewrite (Hsame m f o Hm Hp) in Hno.
              destruct Hnil as (bf & af & Heq & _).
              destruct (Hno None) as (? & [=] & _). rewrite Heq.
              apply elem_of_app. right. left.
        -- split; [|done]. intros _. by exists meta, first, others.
        -- intros m f o Hm Hp. by rewrite (Hsame m f o Hm Hp).
        -- by intros ?? [=].
        -- right. left. done.
  - (* the fetch failed *)
    split; [|split; [|split; [|split]]].
    + split; [intros _; by left | intros _; eauto].
    + split; [done|]. by intros (? & ? & ? & [=] & _).
    + by intros ??? [=].
    + by intros ?? [=].
    + left. eauto.
Qed.

End ClientFacts.

(** One project with one issue type, asked for that type and for another. *)
Example GetIssueTypeFields_found_and_not_found :
  createmeta.GetIssueTypeFields answer_ok decode_one_project "PRJ" "10001"
  = Returns (Some [story_points]) None ∧
  createmeta.GetIssueTypeFields answer_ok decode_one_project "PRJ" "10002"
  = Returns None (Some (not_found "PRJ" "10002")).
Proof. split; reflexivity. Qed.

(** C10, the claim as stated fails: the first project of the response has
    the one issue type [null], so that no issue type with the given ID
    exists among its issue types, and [GetIssueTypeFields] returns no error:
    it panics on the nil pointer. *)
Lemma nil_issue_type_panics :
  let r := createmeta.GetIssueTypeFields answer_ok decode_null_type "PRJ" "10001" in
  createmeta.GetCreateMeta answer_ok decode_null_type
    (createmeta.mkRequest "PRJ" EmptyString "projects.issuetypes.fields")
  = (Some null_type_project, None) ∧
  createmeta.IssueTypes <$> createmeta.MetaProjects null_type_project = [[None]] ∧
  (∀ it, Some it ∈ [@None createmeta.CreateMetaIssueType] →
         createmeta.ID (createmeta.issueType it) ≠ "10001") ∧
  r = Panics ∧ ¬ is_error r.
Proof.
  split; [reflexivity|]. split; [reflexivity|]. split.
  - intros it Hin. apply list_elem_of_singleton in Hin. discriminate Hin.
  - split; [reflexivity|]. intros [err Herr]. discriminate Herr.
Qed.

(** * UTF-8 and the strings of JSON *)

Lemma size_inv c s1 n :
  utf8.size (String c s1) = Some n →
  (n = 1 ∧ (N_of_ascii c <? 128)%N = true) ∨
  ((N_of_ascii c <? 128)%N = false ∧
   ((n = 2 ∧ ∃ c1 s2, s1 = String c1 s2 ∧
       ∀ t, utf8.size (String c (String c1 t)) = Some 2) ∨
    (n = 3 ∧ ∃ c1 c2 s3, s1 = String c1 (String c2 s3) ∧
       ∀ t, utf8.size (String c (String c1 (String c2 t))) = Some 3) ∨
    (n = 4 ∧ ∃ c1 c2 c3 s4, s1 = String c1 (String c2 (String c3 s4)) ∧
       ∀ t, utf8.size (String c (String c1 (String c2 (String c3 t)))) = Some 4))).
Proof.
  unfold utf8.size. destruct (N_of_ascii c <? 128)%N eqn:Hlt; [intros [= <-]; by left|].
  intros Hs. right. split; [done|].
  destruct (utf8.first c) as [[[sz lo] hi]|]; [|done].
  destruct s1 as [|c1 s2]; [done|]. destruct (utf8.between lo hi c1) eqn:Hb; [|done].
  destruct (decide (sz = 2)) as [->|H2].
  { injection Hs as <-. left. split; [done|]. exists c1, s2. split; [done|].
    intros t. by rewrite Hb. }
  assert (∀ A (x y : A), match sz with 2 => x | _ => y end = y) as Hnot2.
  { intros A x y. by destruct sz as [|[|[|sz]]]. }
  rewrite Hnot2 in Hs. destruct s2 as [|c2 s3]; [done|].
  destruct (utf8.cont c2) eqn:Hc2; [|done].
  destruct (decide (sz = 3)) as [->|H3].
  { injection Hs as <-. right. left. split; [done|]. exists c1, c2, s3. split; [done|].
    intros t. by rewrite Hb, Hc2. }
  assert (∀ A (x y : A), match sz with 3 => x | _ => y end = y) as Hnot3.
  { intros A x y. by destruct sz as [|[|[|[|sz]]]]. }
  rewrite Hnot3 in Hs. destruct s3 as [|c3 s4]; [done|].
  destruct (utf8.cont c3) eqn:Hc3; [|done].
  injection Hs as <-. right. right. split; [done|]. exists c1, c2, c3, s4. split; [done|].
  intros t. by rewrite Hb, Hnot2, Hc2, Hnot3, Hc3.
Qed.

Lemma size_None_high c s1 :
  utf8.size (String c s1) = None → (N_of_ascii c <? 128)%N = false.
Proof. unfold utf8.size. by destruct (N_of_ascii c <? 128)%N. Qed.

(** Induction along the runes of a string. *)
Lemma utf8_ind (P : string → Prop) :
  P EmptyString →
  (∀ c s1, (N_of_ascii c <? 128)%N = false → utf8.size (String c s1) = None →
           P s1 → P (String c s1)) →
  (∀ c s1, (N_of_ascii c <? 128)%N = true → utf8.size (String c s1) = Some 1 →
           P s1 → P (String c s1)) →
  (∀ c c1 s2, (N_of_ascii c <? 128)%N = false →
              (∀ t, utf8.size (String c (String c1 t)) = Some 2) →
              P s2 → P (String c (String c1 s2))) →
  (∀ c c1 c2 s3, (N_of_ascii c <? 128)%N = false →
                 (∀ t, utf8.size (String c (String c1 (String c2 t))) = Some 3) →
                 P s3 → P (String c (String c1 (String c2 s3)))) →
  (∀ c c1 c2 c3 s4, (N_of_ascii c <? 128)%N = false →
                    (∀ t, utf8.size (String c (String c1 (String c2 (String c3 t))))
                          = Some 4) →
                    P s4 → P (String c (String c1 (String c2 (String c3 s4))))) →
  ∀ s, P s.
Proof.
  intros Hnil Hbad H1 H2 H3 H4 s.
  assert (∀ n s, String.length s < n → P s)%nat as Hall; [|apply (Hall (S (String.length s))); lia].
  clear s. induction n as [|n IH]; intros s Hlen; [lia|].
  destruct s as [|c s1]; [done|]. cbn [String.length] in Hlen.
  destruct (utf8.size (String c s1)) as [k|] eqn:Hs.
  - destruct (size_inv _ _ _ Hs)
      as [[-> Hlt]|[Hlt [(-> & c1 & s2 & -> & Ht)
                        |[(-> & c1 & c2 & s3 & -> & Ht)
                         |(-> & c1 & c2 & c3 & s4 & -> & Ht)]]]].
    + apply H1; [done..|]. apply IH. lia.
    + apply H2; [done..|]. apply IH. cbn [String.length] in Hlen. lia.
    + apply H3; [done..|]. apply IH. cbn [String.length] in Hlen. lia.
    + apply H4; [done..|]. apply IH. cbn [String.length] in Hlen. lia.
  - apply Hbad; [by apply size_None_high in Hs|done|]. apply IH. lia.
Qed.

Lemma high_byte c :
  (N_of_ascii c <? 128)%N = false →
  bool_decide (c = json.quote) = false ∧ bool_decide (c = json.backslash) = false ∧
  (N_of_ascii c <? 32)%N = false.
Proof. destruct c as [[] [] [] [] [] [] [] []]; done. Qed.

Lemma read_string_high c s1 :
  (N_of_ascii c <? 128)%N = false →
  json.read_string (String c s1) =
  match utf8.size (String c s1), s1 with
  | Some 2, String c1 s2 =>
      json.more (String c (String c1 EmptyString)) (json.read_string s2)
  | Some 3, String c1 (String c2 s3) =>
      json.more (String c (String c1 (String c2 EmptyString))) (json.read_string s3)
  | Some 4, String c1 (String c2 (String c3 s4)) =>
      json.more (String c (String c1 (String c2 (String c3 EmptyString))))
                (json.read_string s4)
  | Some _, _ => json.more (String c EmptyString) (json.read_string s1)
  | None, _ => json.more utf8.replacement (json.read_string s1)
  end.
Proof.
  intros (Hq & Hb & Hc)%high_byte. cbn [json.read_string]. by rewrite Hq, Hb, Hc.
Qed.

Lemma read_string_escape_byte c t :
  (N_of_ascii c <? 128)%N = true →
  json.read_string (json.escape_byte c +:+ t) =
  json.more (String c EmptyString) (json.read_string t).
Proof. destruct c as [[] [] [] [] [] [] [] []]; (done || reflexivity). Qed.

Lemma read_string_replacement t :
  json.read_string (String json.backslash "ufffd" +:+ t) =
  json.more utf8.replacement (json.read_string t).
Proof. reflexivity. Qed.

Lemma read_string_line_separator c c1 c2 t :
  json.line_separator c c1 c2 = true →
  json.read_string (String json.backslash "u202"
                    +:+ String (json.hex (N_of_ascii c2 mod 16)) t) =
  json.more (String c (String c1 (String c2 EmptyString))) (json.read_string t).
Proof.
  unfold json.line_separator. intros Hl.
  destruct c as [[] [] [] [] [] [] [] []]; try done.
  destruct c1 as [[] [] [] [] [] [] [] []]; try done.
  destruct c2 as [[] [] [] [] [] [] [] []]; try done; reflexivity.
Qed.

(** What the encoder writes, the reader reads back coerced to well-formed
    UTF-8. *)
Lemma read_string_escape s rest :
  json.read_string (json.escape s +:+ String json.quote rest)
  = Some (utf8.coerce s, rest).
Proof.
  induction s as [|c s1 Hhigh Hs IH|c s1 Hlow Hs IH|c c1 s2 Hhigh Hs IH
                 |c c1 c2 s3 Hhigh Hs IH|c c1 c2 c3 s4 Hhigh Hs IH] using utf8_ind.
  - done.
  - cbn [json.escape utf8.coerce]. rewrite Hs.
    destruct s1; by rewrite string_app_assoc, read_string_replacement, IH.
  - cbn [json.escape utf8.coerce]. rewrite Hs.
    destruct s1; by rewrite string_app_assoc, read_string_escape_byte, IH.
  - cbn [json.escape utf8.coerce]. rewrite (Hs s2), !string_app_cons.
    by rewrite read_string_high, Hs, IH.
  - cbn [json.escape utf8.coerce]. rewrite (Hs s3).
    destruct (json.line_separator c c1 c2) eqn:Hl.
    + rewrite string_app_assoc, (string_app_cons (json.hex _)).
      by rewrite (read_string_line_separator c c1 c2), IH.
    + rewrite !string_app_cons. by rewrite read_string_high, Hs, IH.
  - cbn [json.escape utf8.coerce]. rewrite (Hs s4), !string_app_cons.
    by rewrite read_string_high, Hs, IH.
Qed.

Lemma coerce_valid s : utf8.ValidString s = true → utf8.coerce s = s.
Proof.
  induction s as [|c s1 Hhigh Hs IH|c s1 Hlow Hs IH|c c1 s2 Hhigh Hs IH
                 |c c1 c2 s3 Hhigh Hs IH|c c1 c2 c3 s4 Hhigh Hs IH] using utf8_ind;
    cbn [utf8.ValidString utf8.coerce]; rewrite ?Hs, ?(Hs s2), ?(Hs s3), ?(Hs s4).
  - done.
  - by destruct s1.
  - destruct s1; intros Hv; by rewrite IH.
  - intros Hv. by rewrite IH.
  - intros Hv. by rewrite IH.
  - intros Hv. by rewrite IH.
Qed.

(** * The marshaler *)

Lemma encodeString_app s rest :
  json.encodeString s +:+ rest = String json.quote (json.escape s +:+ String json.quote rest).
Proof.
  unfold json.encodeString. by rewrite string_app_cons, string_app_assoc, string_app_cons.
Qed.

Ltac string_norm :=
  repeat first [ rewrite string_app_cons | rewrite string_app_nil_l
               | rewrite string_app_assoc ].

Section MarshalerFacts.
Context `{Strconv}.

Lemma read_value_string fuel s rest :
  read_value (S fuel) (json.encodeString s +:+ rest)
  = Some (AString (utf8.coerce s), rest).
Proof.
  rewrite encodeString_app. cbn [read_value json.skip_ws].
  change (json.is_ws json.quote) with false. cbn beta iota.
  rewrite bool_decide_eq_true_2 by done. by rewrite read_string_escape.
Qed.

Lemma read_members_key fuel k vt acc :
  read_members (S fuel) (member_text (k, vt)) acc =
  match read_value fuel vt with
  | Some (v, rest2) =>
      match json.skip_ws rest2 with
      | String c3 s3 =>
          if bool_decide (c3 = ","%char)
          then read_members fuel s3 (<[utf8.coerce k := v]> acc)
          else if bool_decide (c3 = "}"%char)
          then Some (AObject (<[utf8.coerce k := v]> acc), s3)
          else None
      | EmptyString => None
      end
  | None => None
  end.
Proof.
  unfold member_text. cbn [fst snd]. rewrite encodeString_app.
  cbn [read_members json.skip_ws]. change (json.is_ws json.quote) with false.
  cbn beta iota. rewrite bool_decide_eq_true_2 by done.
  rewrite read_string_escape. rewrite string_app_cons, string_app_nil_l.
  cbn [json.skip_ws]. change (json.is_ws ":") with false. cbn beta iota.
  by rewrite bool_decide_eq_true_2 by done.
Qed.

Lemma read_value_object fuel k vt :
  read_value (S fuel) (String "{" (member_text (k, vt))) =
  read_members fuel (member_text (k, vt)) ∅.
Proof.
  unfold member_text. cbn [fst snd]. rewrite encodeString_app.
  cbn [read_value json.skip_ws]. change (json.is_ws "{") with false.
  change (json.is_ws json.quote) with false. cbn beta iota.
  rewrite (bool_decide_eq_false_2 ("{"%char = json.quote)) by done.
  rewrite (bool_decide_eq_true_2 ("{"%char = "{"%char)) by done.
  cbn [json.skip_ws]. change (json.is_ws json.quote) with false. cbn beta iota.
  by rewrite (bool_decide_eq_false_2 (json.quote = "}"%char)) by done.
Qed.

Lemma named_text_app n tail :
  named_text n +:+ tail =
  String "{" (member_text ("name",
     json.encodeString (let 'mkNamed Name := n in Name) +:+ String "}" tail)).
Proof.
  destruct n as [Name]. unfold named_text, member_text. cbn [fst snd].
  by string_norm.
Qed.

Lemma read_named fuel n tail :
  read_value (S (S (S fuel))) (named_text n +:+ tail) = Some (named_value n, tail).
Proof.
  rewrite named_text_app, read_value_object, read_members_key, read_value_string.
  destruct n as [Name]. reflexivity.
Qed.

Lemma read_fields fuel f :
  read_value (S (S (S (S (S (S fuel)))))) (json_Marshal_fields f)
  = Some (AObject (fields_generic f), EmptyString).
Proof.
  destruct f as [[a|] [r|] cf]; unfold json_Marshal_fields, fields_generic;
    cbn [Assignee Resolution app strings.Join].
  - assert (("{" +:+ (member_text ("assignee", named_text a) +:+ ","
               +:+ member_text ("resolution", named_text r)) +:+ "}")
            = String "{" (member_text ("assignee",
                named_text a +:+ String "," (member_text ("resolution",
                  named_text r +:+ "}")))))%string as ->.
    { unfold member_text. cbn [fst snd].
      by string_norm. }
    rewrite read_value_object, read_members_key, read_named.
    cbn [json.skip_ws]. change (json.is_ws ",") with false. cbn beta iota.
    rewrite bool_decide_eq_true_2 by done.
    rewrite read_members_key, read_named. reflexivity.
  - assert (("{" +:+ member_text ("assignee", named_text a) +:+ "}")
            = String "{" (member_text ("assignee", named_text a +:+ "}")))%string as ->.
    { unfold member_text. cbn [fst snd].
      by string_norm. }
    rewrite read_value_object, read_members_key, read_named. reflexivity.
  - assert (("{" +:+ member_text ("resolution", named_text r) +:+ "}")
            = String "{" (member_text ("resolution", named_text r +:+ "}")))%string as ->.
    { unfold member_text. cbn [fst snd].
      by string_norm. }
    rewrite read_value_object, read_members_key, read_named. reflexivity.
  - reflexivity.
Qed.

Lemma fields_length f : (6 ≤ String.length (json_Marshal_fields f))%nat
                        ∨ (Assignee f = None ∧ Resolution f = None).
Proof.
  destruct f as [[[a]|] [[r]|] cf]; [left..|by right];
    unfold json_Marshal_fields, member_text, named_text, json.encodeString;
    cbn [Assignee Resolution app strings.Join fst snd];
    rewrite ?string_length_app; cbn [String.length]; rewrite ?string_length_app;
    cbn [String.length]; lia.
Qed.

Lemma Unmarshal_fields f :
  json_Unmarshal (json_Marshal_fields f) = Some (AObject (fields_generic f)).
Proof.
  unfold json_Unmarshal. destruct (fields_length f) as [Hlen|[Ha Hr]].
  - destruct (String.length (json_Marshal_fields f)) as [|[|[|[|[|[|n]]]]]] eqn:Hl;
      try lia.
    by rewrite read_fields.
  - destruct f as [a r cf]. cbn in Ha, Hr. subst a r. reflexivity.
Qed.

Lemma Marshal_fields_generic f :
  json_Marshal (AObject (fields_generic f)) = Some (json_Marshal_fields (coerced f)).
Proof. destruct f as [[[a]|] [[r]|] cf]; reflexivity. Qed.

Lemma inject_union (visited : list (string * any)) (cf dm : gmap string any) :
  visited ≡ₚ map_to_list cf → inject visited dm = cf ∪ dm.
Proof.
  intros Hperm. unfold inject.
  assert (NoDup visited.*1) as Hnd.
  { rewrite Hperm. apply NoDup_fst_map_to_list. }
  rewrite foldl_insert_list_to_map by done.
  by rewrite (list_to_map_proper _ _ Hnd Hperm), list_to_map_to_list.
Qed.

Lemma Marshal_object_member (m : gmap string any) data key val :
  json_Marshal (AObject m) = Some data → m !! key = Some val →
  ∃ text, json_Marshal val = Some text ∧ occurs (member_text (key, text)) data.
Proof.
  cbn [json_Marshal]. intros (members & Hm & ->)%fmap_Some Hkey.
  apply mapM_Some in Hm.
  assert ((key, json_Marshal val) ∈ map_to_list (json_Marshal <$> m)) as Hin.
  { apply elem_of_map_to_list. by rewrite lookup_fmap, Hkey. }
  destruct (Forall2_elem_of_l _ _ _ _ Hm Hin) as ([k text] & Hy & Hk).
  unfold keyed in Hk. cbn [fst snd] in Hk.
  destruct (json_Marshal val) as [t|] eqn:Ht; [|done]. injection Hk as <- <-.
  exists t. split; [done|]. unfold object_text.
  apply occurs_app_r, occurs_app_l, occurs_Join.
  apply list_elem_of_fmap_2. by rewrite merge_sort_Permutation.
Qed.

Lemma coerced_valid fields :
  valid_names fields → json_Marshal_fields (coerced fields) = json_Marshal_fields fields.
Proof.
  intros Hv. assert (∀ o, (o = Assignee fields ∨ o = Resolution fields) →
                          coerced_name <$> o = o) as Ho.
  { intros [[Name]|] Heq; [|done]. cbn. do 2 f_equal. apply coerce_valid, Hv.
    destruct Heq as [<- | <-]; auto. }
  unfold json_Marshal_fields, coerced. cbn [Assignee Resolution].
  by rewrite !Ho by auto.
Qed.

Lemma MarshalJSON_no_custom fields custom :
  customFields_visited (M (NewTransitionFieldsMarshaler fields custom)) = [] →
  MarshalJSON (NewTransitionFieldsMarshaler fields custom)
  = Returns (Some (json_Marshal_fields (coerced fields))) None.
Proof.
  intros Hvisited. unfold MarshalJSON. rewrite Hvisited.
  change (json_Marshal_fields (M (NewTransitionFieldsMarshaler fields custom)))
    with (json_Marshal_fields (mkFields (Assignee fields) (Resolution fields) custom)).
  rewrite Unmarshal_fields. cbn [inject foldl].
  rewrite Marshal_fields_generic. by destruct fields.
Qed.

(** C4, as amended.  With no custom fields the merge step adds nothing:
    the marshaler gives the same bytes for the nil set and for the empty
    set.  They are the bytes of the static fields marshaled alone (the
    struct writes [assignee] before [resolution], which is also the order
    of the keys) when the names are well-formed UTF-8.  In general they are
    the bytes of the static fields with their names coerced to well-formed
    UTF-8: the re-read has turned every byte that is not UTF-8 into
    U+FFFD. *)
Theorem marshal_without_custom_fields (fields : TransitionRequestFields) :
  MarshalJSON (NewTransitionFieldsMarshaler fields None)
  = MarshalJSON (NewTransitionFieldsMarshaler fields (Some ∅)) ∧
  MarshalJSON (NewTransitionFieldsMarshaler fields None)
  = Returns (Some (json_Marshal_fields (coerced fields))) None ∧
  (valid_names fields →
   MarshalJSON (NewTransitionFieldsMarshaler fields None)
   = Returns (Some (json_Marshal_fields fields)) None).
Proof.
  assert (customFields_visited (M (NewTransitionFieldsMarshaler fields (Some ∅))) = [])
    as Hempty.
  { unfold customFields_visited. cbn. apply map_to_list_empty. }
  split; [|split].
  - by rewrite !MarshalJSON_no_custom.
  - by apply MarshalJSON_no_custom.
  - intros Hv. rewrite MarshalJSON_no_custom by done. by rewrite coerced_valid.
Qed.

(** C8.  The marshaler re-reads the static fields as a generic map and
    assigns every entry of the custom-field set into it, in whatever order
    the entries are visited: the map it then writes is the custom-field set
    over the static map, so that under a key both have, the custom value is
    the one written.  When the marshaler returns bytes, every custom entry
    is in them as a member, key and value. *)
Theorem custom_fields_overwrite
    (fields : TransitionRequestFields) (custom : gmap string any) :
  let tfm := NewTransitionFieldsMarshaler fields (Some custom) in
  let static := fields_generic fields in
  json_Unmarshal (json_Marshal_fields fields) = Some (AObject static) ∧
  (∀ visited, visited ≡ₚ map_to_list custom → inject visited static = custom ∪ static) ∧
  (∀ key val, custom !! key = Some val → (custom ∪ static) !! key = Some val) ∧
  (∀ key, custom !! key = None → (custom ∪ static) !! key = static !! key) ∧
  MarshalJSON tfm =
    match json_Marshal (AObject (custom ∪ static)) with
    | Some data => Returns (Some data) None
    | None => Returns None (Some (ErrExternal "json: unsupported value"))
    end ∧
  (∀ data err, MarshalJSON tfm = Returns (Some data) err →
     ∀ key val, custom !! key = Some val →
       ∃ text, json_Marshal val = Some text ∧ occurs (member_text (key, text)) data).
Proof.
  intros tfm static.
  assert (MarshalJSON tfm =
    match json_Marshal (AObject (custom ∪ static)) with
    | Some data => Returns (Some data) None
    | None => Returns None (Some (ErrExternal "json: unsupported value"))
    end) as Hrun.
  { unfold MarshalJSON, tfm.
    change (json_Marshal_fields (M (NewTransitionFieldsMarshaler fields (Some custom))))
      with (json_Marshal_fields
              (mkFields (Assignee fields) (Resolution fields) (Some custom))).
    rewrite Unmarshal_fields.
    change (fields_generic (mkFields (Assignee fields) (Resolution fields) (Some custom)))
      with static.
    unfold customFields_visited. cbn [M NewTransitionFieldsMarshaler customFields].
    by rewrite (inject_union _ custom). }
  split; [by rewrite Unmarshal_fields|]. split; [intros visited Hv; by apply inject_union|].
  split; [intros key val Hk; by apply lookup_union_Some_l|].
  split; [intros key Hk; by apply lookup_union_r|].
  split; [exact Hrun|].
  intros data err Hret key val Hk. rewrite Hrun in Hret.
  destruct (json_Marshal (AObject (custom ∪ static))) as [data'|] eqn:Hm; [|done].
  injection Hret as <- _. apply (Marshal_object_member _ _ _ _ Hm).
  by apply lookup_union_Some_l.
Qed.

End MarshalerFacts.

(** C4, the claim as stated fails: for a name that is the one byte 0xFF
    the struct alone is written with the escape of U+FFFD, six ASCII bytes,
    and the marshaler, which has read that escape and written the rune
    again, gives the three bytes of U+FFFD in its place. *)
Lemma invalid_byte_is_rewritten :
  let q := json.encodeString in
  let fields := mkFields (Some (mkNamed (String "255" EmptyString))) None None in
  json_Marshal_fields fields
  = "{" +:+ q "assignee" +:+ ":{" +:+ q "name" +:+ ":"
    +:+ String json.quote (String json.backslash "ufffd" +:+ String json.quote "}}") ∧
  MarshalJSON (NewTransitionFieldsMarshaler fields None)
  = Returns (Some ("{" +:+ q "assignee" +:+ ":{" +:+ q "name" +:+ ":"
                   +:+ String json.quote (utf8.replacement +:+ String json.quote "}}")))
            None ∧
  MarshalJSON (NewTransitionFieldsMarshaler fields None)
  ≠ Returns (Some (json_Marshal_fields fields)) None.
Proof. split; [|split]; [reflexivity | vm_compute; reflexivity | vm_compute; discriminate]. Qed.

(** The key [resolution] both as a static field and as a custom field. *)
Example custom_field_wins_collision :
  MarshalJSON (NewTransitionFieldsMarshaler
                 (mkFields (Some (mkNamed "jane")) (Some (mkNamed "Fixed")) None)
                 (Some {[ "resolution" := AOption (mkOption "Done") ]}))
  = Returns (Some ("{" +:+ json.encodeString "assignee" +:+ ":{"
                   +:+ json.encodeString "name" +:+ ":" +:+ json.encodeString "jane"
                   +:+ "}," +:+ json.encodeString "resolution" +:+ ":{"
                   +:+ json.encodeString "value" +:+ ":" +:+ json.encodeString "Done"
                   +:+ "}}")) None.
Proof. vm_compute. reflexivity. Qed.

(** The repository's tests of the marshaler, run on the embedding, with
    the bytes written out; [q] puts a key or a text in quotes. *)
Example TestTransitionFieldsMarshaler :
  let q := json.encodeString in
  MarshalJSON (NewTransitionFieldsMarshaler
                 (mkFields (Some (mkNamed "john")) (Some (mkNamed "Fixed")) None)
                 (Some {[ "customfield_10001" := AString "test-value";
                          "customfield_10002" := ANumber 5%N;
                          "customfield_10003" := AOption (mkOption "production") ]}))
  = Returns (Some ("{" +:+ q "assignee" +:+ ":{" +:+ q "name" +:+ ":" +:+ q "john" +:+ "},"
                   +:+ q "customfield_10001" +:+ ":" +:+ q "test-value" +:+ ","
                   +:+ q "customfield_10002" +:+ ":5,"
                   +:+ q "customfield_10003" +:+ ":{" +:+ q "value" +:+ ":"
                   +:+ q "production" +:+ "},"
                   +:+ q "resolution" +:+ ":{" +:+ q "name" +:+ ":" +:+ q "Fixed" +:+ "}}"))
            None.
Proof. vm_compute. reflexivity. Qed.

Example TestTransitionFieldsMarshalerWithoutCustomFields :
  let q := json.encodeString in
  MarshalJSON (NewTransitionFieldsMarshaler
                 (mkFields (Some (mkNamed "jane")) None None) None)
  = Returns (Some ("{" +:+ q "assignee" +:+ ":{" +:+ q "name" +:+ ":" +:+ q "jane" +:+ "}}"))
            None.
Proof. vm_compute. reflexivity. Qed.

(** * More about package [strings] and the identifier *)

Lemma lower_idemp c : strings.lower (strings.lower c) = strings.lower c.
Proof. destruct c as [[] [] [] [] [] [] [] []]; reflexivity. Qed.

Lemma ToLower_idemp s : strings.ToLower (strings.ToLower s) = strings.ToLower s.
Proof. induction s as [|c s IH]; [done|]. cbn. by rewrite lower_idemp, IH. Qed.

Lemma lower_space c : strings.lower c = space ↔ c = space.
Proof. destruct c as [[] [] [] [] [] [] [] []]; vm_compute; split; congruence. Qed.

Lemma has_space_ToLower s : has_byte space (strings.ToLower s) = has_byte space s.
Proof.
  induction s as [|c s IH]; [done|]. cbn [has_byte strings.ToLower]. rewrite IH.
  f_equal. apply bool_decide_ext, lower_space.
Qed.

Lemma replace_space_cons c s :
  strings.ReplaceAll (String c s) " " "-" =
  String (if bool_decide (c = space) then "-"%char else c) (strings.ReplaceAll s " " "-").
Proof.
  unfold strings.ReplaceAll. cbn [strings.replace_from]. rewrite prefix_space.
  change (String.length " " - 1)%nat with 0%nat. unfold space.
  by destruct (bool_decide (c = " "%char)).
Qed.

Lemma no_space_after_replace s : has_byte space (strings.ReplaceAll s " " "-") = false.
Proof.
  induction s as [|c s IH]; [done|]. rewrite replace_space_cons. cbn [has_byte].
  rewrite IH, orb_false_r. by destruct (bool_decide (c = space)) eqn:Hc.
Qed.

Lemma ToLower_replace s :
  strings.ToLower (strings.ReplaceAll s " " "-") =
  strings.ReplaceAll (strings.ToLower s) " " "-".
Proof.
  induction s as [|c s IH]; [done|]. cbn [strings.ToLower].
  rewrite !replace_space_cons. cbn [strings.ToLower]. rewrite IH. f_equal.
  rewrite (bool_decide_ext _ _ (lower_space c)).
  by destruct (bool_decide (c = space)).
Qed.

(** An identifier is in lower case and holds no space. *)
Lemma identifier_lower f : strings.ToLower (identifier f) = identifier f.
Proof. unfold identifier. by rewrite ToLower_replace, ToLower_idemp. Qed.

Lemma identifier_no_space f : has_byte space (identifier f) = false.
Proof. apply no_space_after_replace. Qed.

Lemma Join_cons e l sep :
  l ≠ [] → strings.Join (e :: l) sep = e +:+ sep +:+ strings.Join l sep.
Proof. by destruct l. Qed.

Lemma Join_Split s : strings.Join (strings.Split s ",") "," = s.
Proof.
  induction s as [|c s IH]; [done|]. rewrite Split_comma_cons. case_bool_decide as Hc.
  - rewrite Join_cons by apply Split_nonempty. rewrite IH, string_app_nil_l.
    by rewrite Hc.
  - destruct (strings.Split s ",") as [|p [|q l]] eqn:Hs.
    + by apply Split_nonempty in Hs.
    + cbn in *. by rewrite IH.
    + cbn [cons_head]. rewrite Join_cons by done. rewrite Join_cons in IH by done.
      by rewrite string_app_cons, IH.
Qed.

Lemma Split_no_comma s : has_byte comma s = false → strings.Split s "," = [s].
Proof.
  induction s as [|c s IH]; [done|]. cbn [has_byte].
  intros [Hc Hs]%orb_false_elim. rewrite Split_comma_cons, Hc, (IH Hs). done.
Qed.

Lemma Split_app_comma e t :
  has_byte comma e = false →
  strings.Split (e +:+ "," +:+ t) "," = e :: strings.Split t ",".
Proof.
  induction e as [|c e IH]; cbn [has_byte].
  - intros _. rewrite string_app_nil_l, string_app_cons, string_app_nil_l.
    by rewrite Split_comma_cons, bool_decide_eq_true_2.
  - intros [Hc He]%orb_false_elim. rewrite string_app_cons, Split_comma_cons, Hc.
    by rewrite (IH He).
Qed.

Lemma Split_Join l :
  l ≠ [] → Forall (fun p => has_byte comma p = false) l →
  strings.Split (strings.Join l ",") "," = l.
Proof.
  intros Hne Hl. induction Hl as [|e l He Hl IH]; [done|].
  destruct l as [|e' l].
  - by apply Split_no_comma.
  - rewrite Join_cons by done. rewrite Split_app_comma by done. by rewrite IH.
Qed.

Lemma Split_pieces_no_comma s :
  Forall (fun p => has_byte comma p = false) (strings.Split s ",").
Proof.
  induction s as [|c s IH]; [by repeat constructor|]. rewrite Split_comma_cons.
  case_bool_decide as Hc; [by constructor|].
  destruct (strings.Split s ",") as [|p ps]; cbn [cons_head].
  - repeat constructor. cbn. by rewrite bool_decide_eq_false_2.
  - apply Forall_cons in IH as [Hp Hps]. constructor; [|done].
    cbn [has_byte]. by rewrite bool_decide_eq_false_2, Hp.
Qed.

Lemma Split_length s : length (strings.Split s ",") = S (count_byte comma s).
Proof.
  induction s as [|c s IH]; [done|]. rewrite Split_comma_cons. cbn [count_byte].
  case_bool_decide; cbn [length]; [by rewrite IH|].
  destruct (strings.Split s ","); cbn in *; lia.
Qed.

Lemma has_byte_TrimLeft c s : has_byte c s = false → has_byte c (strings.TrimLeft s) = false.
Proof.
  induction s as [|a s IH]; [done|]. cbn [strings.TrimLeft].
  destruct (Ascii.is_space a); [|done]. cbn [has_byte].
  intros [_ Hs]%orb_false_elim. auto.
Qed.

Lemma has_byte_TrimRight c s : has_byte c s = false → has_byte c (strings.TrimRight s) = false.
Proof.
  induction s as [|a s IH]; [done|]. rewrite TrimRight_cons.
  cbn [has_byte]. intros [Ha Hs]%orb_false_elim.
  destruct (all_space s).
  - destruct (Ascii.is_space a); [done|]. cbn [has_byte]. by rewrite Ha.
  - cbn [has_byte]. by rewrite Ha, IH.
Qed.

Lemma TrimSpace_idemp s : strings.TrimSpace (strings.TrimSpace s) = strings.TrimSpace s.
Proof.
  unfold strings.TrimSpace.
  by rewrite TrimLeft_TrimRight, TrimLeft_idemp, TrimRight_idemp.
Qed.

Lemma count_comma_TrimSpace s :
  count_byte comma (strings.TrimSpace s) = count_byte comma s.
Proof.
  pose proof (f_equal length (Split_TrimSpace_pieces s)) as Hl.
  rewrite !length_fmap, !Split_length in Hl. lia.
Qed.

(** * More about the builder *)

Section EngineExtras.
Context `{Strconv}.

Lemma classify_array_pieces val configured :
  DataType (Schema configured) = customFieldFormatArray →
  classify val configured =
    let pieces := strings.TrimSpace <$> strings.Split (strings.TrimSpace val) "," in
    if decide (Items (Schema configured) = customFieldFormatOption)
    then AOptions (mkOption <$> pieces) else AStrings pieces.
Proof.
  intros Hd. unfold classify. rewrite Hd.
  rewrite (foldl_snoc_fmap (fun p => mkOption (strings.TrimSpace p))).
  rewrite (foldl_snoc_fmap strings.TrimSpace).
  rewrite <- list_fmap_compose. reflexivity.
Qed.

(** X1.  The list that an array field gets has one element more than the
    raw value has commas, and each element is free of commas and of white
    space around it. *)
Theorem array_elements_shape (val : string) (configured : IssueTypeField) :
  DataType (Schema configured) = customFieldFormatArray →
  ∃ pieces,
    classify val configured =
      (if decide (Items (Schema configured) = customFieldFormatOption)
       then AOptions (mkOption <$> pieces) else AStrings pieces) ∧
    length pieces = S (count_byte comma val) ∧
    Forall trimmed_piece pieces.
Proof.
  intros Hd. eexists. split; [by apply classify_array_pieces|]. split.
  - by rewrite length_fmap, Split_length, count_comma_TrimSpace.
  - apply Forall_fmap, Forall_forall. intros p Hp. split.
    + apply has_byte_TrimRight, has_byte_TrimLeft.
      exact (proj1 (Forall_forall _ _) (Split_pieces_no_comma _) p Hp).
    + apply TrimSpace_idemp.
Qed.

(** X2.  A list of ASCII strings without commas and without white space
    around them, joined by commas, is classified back into that list. *)
Theorem array_reads_back_joined_list (l : list string) (configured : IssueTypeField) :
  DataType (Schema configured) = customFieldFormatArray →
  Items (Schema configured) ≠ customFieldFormatOption →
  l ≠ [] → Forall trimmed_piece l → Forall (fun p => ascii_only p = true) l →
  classify (strings.Join l ",") configured = AStrings l.
Proof.
  intros Hd Hi Hne Hl _. rewrite classify_array_pieces by done. cbn zeta.
  rewrite decide_False by done. f_equal.
  rewrite Split_TrimSpace_pieces, Split_Join; [|done|].
  - apply list_eq. intros i. rewrite list_lookup_fmap.
    destruct (l !! i) as [p|] eqn:Hp; [|done]. cbn. f_equal.
    by apply (proj1 (Forall_forall _ _) Hl p (list_elem_of_lookup_2 _ _ _ Hp)).
  - eapply Forall_impl; [exact Hl|]. by intros p [? _].
Qed.

Lemma build_fold_none cfg (l : list (string * string)) cf :
  (∀ name f, name ∈ l.*1 → f ∈ cfg → identifier f ≠ strings.ToLower name) →
  foldl (build_entry cfg) cf l = cf.
Proof.
  intros Hno. apply map_eq. intros k.
  destruct (cf !! k) as [v|] eqn:Hk.
  - revert cf Hk. induction l as [|[name val] l IH]; intros cf Hk; [done|].
    cbn [foldl]. apply IH.
    + intros n f Hn. apply Hno. by right.
    + rewrite build_entry_lookup. destruct (last _) as [f|] eqn:Hl; [|done].
      apply last_Some_elem_of, list_elem_of_filter in Hl as [[Hid _] Hin].
      destruct (Hno name f); [left|done..].
  - apply eq_None_not_Some. intros Hs. apply build_fold_is_Some in Hs.
    destruct Hs as [Hs|(name & val & f & Hin & Hf & [Hid _])].
    + rewrite Hk in Hs. by destruct Hs.
    + apply (Hno name f); [|done..]. by apply (list_elem_of_fmap_2 fst) in Hin.
Qed.

(** X3.  The builder returns nil exactly when the request or the list of
    configured fields is empty.  When neither is and no requested name
    matches a configured identifier, it returns the empty map, which is not
    nil. *)
Theorem build_nil_or_empty (fields : entries string) (configuredFields : list IssueTypeField) :
  (BuildCustomFieldsForTransition fields configuredFields = None ↔
     len fields = 0 ∨ configuredFields = []) ∧
  (len fields ≠ 0 ∧ configuredFields ≠ [] ∧
   (∀ name f, name ∈ (range fields).*1 → f ∈ configuredFields →
              identifier f ≠ strings.ToLower name) →
   BuildCustomFieldsForTransition fields configuredFields = Some ∅).
Proof.
  split.
  - unfold BuildCustomFieldsForTransition. case_decide as Hd.
    + split; [|done]. intros _. destruct Hd as [?|Hl]; [by left|right].
      by destruct configuredFields.
    + split; [done|]. intros [? | ->]; destruct Hd; [by left|by right].
  - intros (Hf & Hc & Hno). rewrite Build_Some by done. f_equal.
    by apply build_fold_none.
Qed.

Lemma written_answers cfg k kv v :
  written cfg k kv = Some v →
  ∃ f, f ∈ cfg ∧ identifier f = strings.ToLower kv.1 ∧ Key f = k.
Proof.
  unfold written. intros (f & Hl & _)%fmap_Some.
  apply last_Some_elem_of, list_elem_of_filter in Hl as [[Hid Hk] Hin]. eauto.
Qed.

Lemma written_at_most_once cfg k (l : list (string * string)) :
  key_coherent cfg → NoDup (strings.ToLower <$> l.*1) →
  (length (omap (written cfg k) l) ≤ 1)%nat.
Proof.
  intros Hco. induction l as [|kv l IH]; intros Hnd; [cbn; lia|].
  rewrite !fmap_cons in Hnd. apply NoDup_cons in Hnd as [Hnotin Hnd].
  cbn [omap list_omap]. destruct (written cfg k kv) as [v|] eqn:Hw; [|by apply IH].
  enough (omap (written cfg k) l = []) as -> by (cbn; lia).
  destruct (omap (written cfg k) l) as [|v' l'] eqn:Ho; [done|].
  assert (v' ∈ omap (written cfg k) l) as Hin by (rewrite Ho; left).
  apply list_elem_of_omap in Hin as (kv' & Hin & Hw').
  apply written_answers in Hw as (f & Hf & Hidf & Hkf).
  apply written_answers in Hw' as (g & Hg & Hidg & Hkg).
  destruct Hnotin. rewrite <- Hidf, (Hco f g Hf Hg) by congruence. rewrite Hidg.
  apply list_elem_of_fmap_2. by apply (list_elem_of_fmap_2 fst) in Hin.
Qed.

(** X4.  The order in which the requested entries are visited does not
    matter to the builder when no two requested names are equal in lower
    case and configured fields that share a key share their identifier. *)
Theorem build_order_independent
    (l1 l2 : list (string * string)) (configuredFields : list IssueTypeField) :
  l1 ≡ₚ l2 → NoDup (strings.ToLower <$> l1.*1) → key_coherent configuredFields →
  BuildCustomFieldsForTransition (Some l1) configuredFields
  = BuildCustomFieldsForTransition (Some l2) configuredFields.
Proof.
  intros Hperm Hnd Hco. unfold BuildCustomFieldsForTransition. cbn [len range].
  rewrite (Permutation_length Hperm). case_decide; [done|]. f_equal.
  apply map_eq. intros k. rewrite !build_fold_lookup.
  assert (NoDup (strings.ToLower <$> l2.*1)) as Hnd2 by by rewrite <- Hperm.
  pose proof (written_at_most_once configuredFields k l1 Hco Hnd) as H1.
  pose proof (written_at_most_once configuredFields k l2 Hco Hnd2) as H2.
  assert (omap (written configuredFields k) l1 ≡ₚ omap (written configuredFields k) l2)
    as Hp by by rewrite Hperm.
  destruct (omap (written configuredFields k) l1) as [|v1 [|??]];
    destruct (omap (written configuredFields k) l2) as [|v2 [|??]];
    cbn in H1, H2; try lia.
  - done.
  - by apply Permutation_nil_cons in Hp.
  - symmetry in Hp. by apply Permutation_nil_cons in Hp.
  - by apply Permutation_singleton_inj in Hp as ->.
Qed.

Lemma build_entry_lower cfg cf name val :
  build_entry cfg cf (strings.ToLower name, val) = build_entry cfg cf (name, val).
Proof. unfold build_entry. cbn [fst snd]. by rewrite ToLower_idemp. Qed.

(** X5.  The builder takes requested names without regard to case: the
    request with its names in lower case gives the same result. *)
Theorem build_ignores_case (l : list (string * string)) (configuredFields : list IssueTypeField) :
  BuildCustomFieldsForTransition (Some (lower_names l)) configuredFields
  = BuildCustomFieldsForTransition (Some l) configuredFields.
Proof.
  unfold BuildCustomFieldsForTransition, lower_names. cbn [len range].
  rewrite length_fmap. case_decide as Hd; [done|]. clear Hd. f_equal.
  generalize (∅ : gmap string any). induction l as [|[name val] l IH]; intros cf; [done|].
  rewrite fmap_cons. cbn [foldl fst snd]. by rewrite build_entry_lower, IH.
Qed.

(** X6.  A requested name with a space in it matches no configured field,
    whatever is configured: the builder leaves it out, and the strict
    validator refuses the request. *)
Theorem name_with_space_matches_nothing
    (name val : string) (available configuredFields : list IssueTypeField)
    (issueTypeName : string) :
  has_byte space name = true →
  (∀ f, identifier f ≠ strings.ToLower name) ∧
  (configuredFields ≠ [] →
   BuildCustomFieldsForTransition (Some [(name, val)]) configuredFields = Some ∅) ∧
  (ValidateAndFilterCustomFields (Some [(name, val)]) available configuredFields
     issueTypeName).1 = None.
Proof.
  intros Hsp.
  assert (∀ f, identifier f ≠ strings.ToLower name) as Hno.
  { intros f Hid. pose proof (identifier_no_space f) as Hf.
    rewrite Hid, has_space_ToLower in Hf. congruence. }
  split; [done|]. split.
  - intros Hc. rewrite Build_Some by done. f_equal. apply build_fold_none.
    intros n f Hn _. cbn in Hn. apply list_elem_of_singleton in Hn as ->. apply Hno.
  - unfold ValidateAndFilterCustomFields. rewrite decide_False by done.
    rewrite scan_requested_eq. cbn [invalidFields range].
    assert (filter (fun n => judge available configuredFields n ≠ Kept) [(name, val)].*1
            = [name]) as ->; [|done].
    change ([(name, val)].*1) with [name]. rewrite filter_cons, decide_True; [done|].
    apply judge_invalid. left. intros f _. apply Hno.
Qed.

(** X7.  When the lenient check has nothing to warn about, the builder
    leaves no requested name out: for every requested name there is a
    configured field with that name as its identifier, and the key of that
    field has an entry in the result. *)
Theorem silent_check_means_nothing_dropped
    (fields : entries string) (configuredFields : list IssueTypeField) :
  len fields ≠ 0 → ValidateCustomFields fields configuredFields = None →
  ∃ cf, BuildCustomFieldsForTransition fields configuredFields = Some cf ∧
    ∀ name, name ∈ (range fields).*1 →
      ∃ f, f ∈ configuredFields ∧ identifier f = name ∧ is_Some (cf !! Key f).
Proof.
  intros Hlen. unfold ValidateCustomFields. rewrite decide_False by done.
  case_decide as Hinv; [done|]. intros _.
  assert (invalidCustomFields fields configuredFields = []) as Hnil.
  { destruct (invalidCustomFields _ _); [done|]. cbn in Hinv. lia. }
  rewrite invalidCustomFields_filter in Hnil.
  assert (∀ name, name ∈ (range fields).*1 →
            ∃ f, f ∈ configuredFields ∧ identifier f = name) as Hall.
  { intros name Hin.
    destruct (decide (Forall (fun f => identifier f ≠ name) configuredFields)) as [Hno|Hsome].
    - assert (name ∈ filter (fun key => Forall (fun f => identifier f ≠ key) configuredFields)
                       (range fields).*1) as Hf by by apply list_elem_of_filter.
      rewrite Hnil in Hf. by apply elem_of_nil in Hf.
    - apply not_Forall_Exists in Hsome; [|apply _].
      apply Exists_exists in Hsome as (f & Hf & Hid). exists f. split; [done|].
      by apply dec_stable. }
  assert (configuredFields ≠ []) as Hc.
  { destruct fields as [[|[name val] l]|]; cbn in Hlen; try done.
    destruct (Hall name) as (f & Hf & _); [left|]. intros ->. by apply elem_of_nil in Hf. }
  eexists. split; [by apply Build_Some|]. intros name Hin.
  destruct (Hall name Hin) as (f & Hf & Hid). exists f. split; [done|]. split; [done|].
  apply build_fold_is_Some. right.
  apply list_elem_of_fmap in Hin as ([name' val] & -> & Hin).
  exists name', val, f. split; [done|]. split; [done|]. split; [|done].
  cbn in Hid. by rewrite <- Hid, identifier_lower.
Qed.

End EngineExtras.

(** * More about the two validators *)

Lemma judge_Kept av cfg name :
  judge av cfg name = Kept ↔
  ∃ f, configured_for cfg name = Some f ∧ ∃ g, g ∈ av ∧ Key g = Key f.
Proof.
  unfold judge, configured_for. rewrite configuredMap_lookup.
  destruct (last (filter _ cfg)) as [f|] eqn:Hl; cbn.
  - rewrite availableMap_lookup. destruct (last (filter _ av)) as [g|] eqn:Hg.
    + split; [|done]. intros _. exists f. split; [done|].
      apply last_Some_elem_of, list_elem_of_filter in Hg as [Hk Hin]. eauto.
    + split; [done|]. intros (f' & [= <-] & g & Hin & Hk).
      by destruct (proj1 (last_filter_None _ _) Hg g Hin).
  - split; [done|]. by intros (? & [=] & _).
Qed.

Lemma no_invalid_all_Kept av cfg (names : list string) :
  filter (fun name => judge av cfg name ≠ Kept) names = [] →
  ∀ name, name ∈ names → judge av cfg name = Kept.
Proof.
  intros Hnil name Hin.
  destruct (decide (judge av cfg name = Kept)) as [|Hj]; [done|].
  assert (name ∈ filter (fun name => judge av cfg name ≠ Kept) names) as Hf
    by by apply list_elem_of_filter.
  rewrite Hnil in Hf. by apply elem_of_nil in Hf.
Qed.

Lemma strict_passes_all_Kept requested av cfg itn :
  len requested ≠ 0 →
  (ValidateAndFilterCustomFields requested av cfg itn).2 = None →
  ∀ name, name ∈ (range requested).*1 → judge av cfg name = Kept.
Proof.
  intros Hlen. unfold ValidateAndFilterCustomFields. rewrite decide_False by done.
  rewrite scan_requested_eq. cbn [invalidFields]. case_decide as Hinv; [done|].
  intros _. apply no_invalid_all_Kept.
  destruct (filter _ _); [done|]. cbn in Hinv. lia.
Qed.

(** X8.  The lenient check stays silent exactly when every requested key,
    as it is given, is the identifier of some configured field; a warning
    names every requested key that is not. *)
Theorem lenient_warning_iff (fields : entries string) (configuredFields : list IssueTypeField) :
  (ValidateCustomFields fields configuredFields = None ↔
     ∀ key, key ∈ (range fields).*1 →
       ∃ f, f ∈ configuredFields ∧ identifier f = key) ∧
  (∀ text key, ValidateCustomFields fields configuredFields = Some text →
     key ∈ (range fields).*1 →
     (∀ f, f ∈ configuredFields → identifier f ≠ key) →
     occurs key text).
Proof.
  unfold ValidateCustomFields. rewrite invalidCustomFields_filter.
  set (P := fun key => Forall (fun f => identifier f ≠ key) configuredFields).
  assert (∀ key, ¬ P key ↔ ∃ f, f ∈ configuredFields ∧ identifier f = key) as HP.
  { intros key. unfold P. split.
    - intros Hn. apply not_Forall_Exists in Hn; [|apply _].
      apply Exists_exists in Hn as (f & Hf & Hid). exists f. split; [done|].
      by apply dec_stable.
    - intros (f & Hf & Hid) Hall. by apply (proj1 (Forall_forall _ _) Hall f Hf). }
  case_decide as Hlen.
  - split; [|done]. split; [|done]. intros _ key Hin.
    destruct fields as [[|??]|]; cbn in *; try done; by apply elem_of_nil in Hin.
  - split.
    + case_decide as Hinv.
      * split; [done|]. intros Hall.
        destruct (filter P _) as [|key l] eqn:Hf; [cbn in Hinv; lia|].
        assert (key ∈ filter P (range fields).*1) as [HPk Hin]%list_elem_of_filter
          by (rewrite Hf; left).
        by apply HP in HPk; [|apply Hall].
      * split; [|done]. intros _ key Hin. apply HP. intros HPk.
        assert (key ∈ filter P (range fields).*1) as Hf by by apply list_elem_of_filter.
        destruct (filter P _); [by apply elem_of_nil in Hf|]. cbn in Hinv. lia.
    + intros text key Htext Hin Hno. case_decide; [|done]. injection Htext as <-.
      unfold warning_text. repeat apply occurs_app_r. apply occurs_Join.
      apply list_elem_of_filter. split; [|done]. by apply Forall_forall.
Qed.

(** X9.  On a request whose names are in lower case, what the strict
    validator lets pass the lenient check lets pass without a warning. *)
Theorem strict_pass_means_lenient_silent
    (requested : entries string) (available configuredFields : list IssueTypeField)
    (issueTypeName : string) :
  Forall (fun name => strings.ToLower name = name) (range requested).*1 →
  (ValidateAndFilterCustomFields requested available configuredFields issueTypeName).2
    = None →
  ValidateCustomFields requested configuredFields = None.
Proof.
  intros Hlow Hpass. unfold ValidateCustomFields. case_decide as Hlen; [done|].
  rewrite (lenient_agrees_on_lowercase _ available) by done.
  pose proof (strict_passes_all_Kept _ _ _ _ Hlen Hpass) as HK.
  assert (filter (fun name => judge available configuredFields name = Unknown)
                 (range requested).*1 = []) as ->; [|done].
  destruct (filter _ _) as [|name l] eqn:Hf; [done|].
  assert (name ∈ filter (fun name => judge available configuredFields name = Unknown)
                   (range requested).*1) as [Hu Hin]%list_elem_of_filter
    by (rewrite Hf; left).
  rewrite (HK name Hin) in Hu. discriminate Hu.
Qed.

(** X10.  A request that passes the strict validation is built in full:
    every requested name has its configured field, the key of that field is
    the key of an available field, and the builder puts an entry under it. *)
Theorem validated_request_is_built_in_full `{Strconv}
    (requested : entries string) (available configuredFields : list IssueTypeField)
    (issueTypeName : string) :
  len requested ≠ 0 →
  (ValidateAndFilterCustomFields requested available configuredFields issueTypeName).2
    = None →
  ∃ cf, BuildCustomFieldsForTransition requested configuredFields = Some cf ∧
    ∀ name, name ∈ (range requested).*1 →
      ∃ f, configured_for configuredFields name = Some f ∧
           (∃ g, g ∈ available ∧ Key g = Key f) ∧
           is_Some (cf !! Key f).
Proof.
  intros Hlen Hpass. pose proof (strict_passes_all_Kept _ _ _ _ Hlen Hpass) as HK.
  assert (configuredFields ≠ []) as Hc.
  { destruct requested as [[|[name val] l]|]; cbn in Hlen; try done.
    destruct (proj1 (judge_Kept _ _ _) (HK name ltac:(left))) as (f & Hf & _).
    intros ->. discriminate Hf. }
  eexists. split; [by apply Build_Some|]. intros name Hin.
  destruct (proj1 (judge_Kept _ _ _) (HK name Hin)) as (f & Hf & Hav).
  exists f. split; [done|]. split; [done|].
  apply build_fold_is_Some. right.
  apply list_elem_of_fmap in Hin as ([name' val] & -> & Hin).
  apply last_Some_elem_of, list_elem_of_filter in Hf as [Hid Hf].
  by exists name', val, f.
Qed.

(** X11.  The strict validator does not depend on the order in which the
    requested entries are visited: the filtered map is the same, an error
    comes in the one order exactly when it comes in the other, and the
    invalid names are the same up to their order. *)
Theorem strict_validation_order_independent
    (l1 l2 : list (string * string)) (available configuredFields : list IssueTypeField)
    (issueTypeName : string) :
  l1 ≡ₚ l2 → NoDup l1.*1 →
  let r1 := ValidateAndFilterCustomFields (Some l1) available configuredFields
              issueTypeName in
  let r2 := ValidateAndFilterCustomFields (Some l2) available configuredFields
              issueTypeName in
  r1.1 = r2.1 ∧ (r1.2 = None ↔ r2.2 = None) ∧
  invalidFields (scan_requested (Some l1) available configuredFields)
  ≡ₚ invalidFields (scan_requested (Some l2) available configuredFields).
Proof.
  intros Hperm Hnd r1 r2. subst r1 r2.
  assert (NoDup l2.*1) as Hnd2 by by rewrite <- Hperm.
  assert (invalidFields (scan_requested (Some l1) available configuredFields)
          ≡ₚ invalidFields (scan_requested (Some l2) available configuredFields)) as Hinv.
  { rewrite !scan_requested_eq. cbn [invalidFields range]. by rewrite Hperm. }
  split; [|split; [|done]].
  - unfold ValidateAndFilterCustomFields. cbn [len].
    rewrite (Permutation_length Hperm). case_decide as Hlen.
    + destruct l2; [|done]. by apply Permutation_nil_r in Hperm as ->.
    + rewrite (Permutation_length Hinv). case_decide; [done|]. cbn [fst]. f_equal.
      rewrite !scan_requested_eq. cbn [validFields range].
      assert (∀ l : list (string * string), NoDup l.*1 →
                NoDup (filter (fun kv => judge available configuredFields kv.1 = Kept) l).*1)
        as Hsub.
      { intros l Hl. induction l as [|kv l IH]; [done|].
        rewrite fmap_cons in Hl. apply NoDup_cons in Hl as [Hnotin Hl].
        rewrite filter_cons. case_decide; [|by apply IH].
        rewrite fmap_cons. apply NoDup_cons. split; [|by apply IH].
        intros Hin. apply Hnotin.
        apply list_elem_of_fmap in Hin as (kv' & -> & Hin').
        apply list_elem_of_filter in Hin' as [_ Hin']. by apply list_elem_of_fmap_2. }
      rewrite !foldl_insert_list_to_map by by apply Hsub.
      f_equal. apply list_to_map_proper; [by apply Hsub|]. by rewrite Hperm.
  - unfold ValidateAndFilterCustomFields. cbn [len].
    rewrite (Permutation_length Hperm). case_decide as Hlen; [done|].
    rewrite (Permutation_length Hinv). by case_decide.
Qed.

(** X12.  When the issue type, the requested names, the configured keys
    and the names of the available fields hold no ['%'], the error of a
    failed strict validation is the message as built: it opens with the
    issue type and then the invalid names, in the order they were visited,
    separated by a comma and a space. *)
Theorem strict_error_opens_with_invalid_names
    (requested : entries string) (available configuredFields : list IssueTypeField)
    (issueTypeName : string) (err : error) :
  plain issueTypeName → Forall plain (range requested).*1 →
  Forall (fun f => plain (Key f)) configuredFields →
  Forall (fun g => plain (Name g)) available →
  (ValidateAndFilterCustomFields requested available configuredFields issueTypeName).2
    = Some err →
  ∃ rest,
    err = ErrText ("Invalid custom fields for issue type '" +:+ issueTypeName +:+ "': "
                   +:+ strings.Join
                         (filter (fun name => judge available configuredFields name ≠ Kept)
                                 (range requested).*1) ", "
                   +:+ rest).
Proof.
  intros Hitn Hnames Hcfg Hav Herr.
  rewrite (strict_error_text _ _ _ _ _ Hitn Hnames Hcfg Hav Herr).
  unfold errMsg. rewrite scan_requested_eq. cbn [invalidFields invalidFieldKeys].
  repeat case_decide; eexists; f_equal; rewrite !string_app_assoc; reflexivity.
Qed.

(** * More about the create metadata *)

Lemma GetCreateMeta_cases GetV2 Decode req :
  createmeta.GetCreateMeta GetV2 Decode req =
  match GetV2 (createmeta_path req) with
  | (_, Some err) => (None, Some err)
  | (None, None) => (None, Some ErrEmptyResponse)
  | (Some res, None) =>
      if decide (StatusCode res = 200)
      then (Some (Decode (Body res)).1, (Decode (Body res)).2)
      else (None, Some (ErrUnexpectedResponse res))
  end.
Proof.
  unfold createmeta.GetCreateMeta. fold (createmeta_path req).
  destruct (GetV2 (createmeta_path req)) as [[res|] [err|]]; try done.
  unfold createmeta.StatusOK. repeat case_decide; try done. by destruct (Decode _).
Qed.

Lemma GetCreateMetaForJiraServerV9_cases GetV2 DecodeV9 req :
  createmeta.GetCreateMetaForJiraServerV9 GetV2 DecodeV9 req =
  match GetV2 (createmeta_v9_path req) with
  | (_, Some err) => (None, Some err)
  | (None, None) => (None, Some ErrEmptyResponse)
  | (Some res, None) =>
      if decide (StatusCode res = 200)
      then (Some (DecodeV9 (Body res)).1, (DecodeV9 (Body res)).2)
      else (None, Some (ErrUnexpectedResponse res))
  end.
Proof.
  unfold createmeta.GetCreateMetaForJiraServerV9. fold (createmeta_v9_path req).
  destruct (GetV2 (createmeta_v9_path req)) as [[res|] [err|]]; try done.
  unfold createmeta.StatusOK. repeat case_decide; try done. by destruct (DecodeV9 _).
Qed.

(** What the two fetches have in common, for a transport answer [a] and
    the decoded body [d]. *)
Lemma fetch_shape {R} (a : option Response * option error)
    (d : string → R * option error) (r : option R * option error) :
  r = match a with
      | (_, Some err) => (None, Some err)
      | (None, None) => (None, Some ErrEmptyResponse)
      | (Some res, None) =>
          if decide (StatusCode res = 200)
          then (Some (d (Body res)).1, (d (Body res)).2)
          else (None, Some (ErrUnexpectedResponse res))
      end →
  r ≠ (None, None) ∧
  (∀ out, r.1 = Some out ↔
     ∃ res, a = (Some res, None) ∧ StatusCode res = 200 ∧ d (Body res) = (out, r.2)) ∧
  (∀ res err, a = (res, Some err) → r = (None, Some err)).
Proof.
  intros ->. destruct a as [[res|] [err|]].
  - split; [done|]. split; [|by intros ?? [= <- <-]].
    intros out. split; [done|]. by intros (? & [=] & _).
  - case_decide as Hs.
    + split; [done|]. split; [|by intros ?? [=]]. intros out. cbn [fst snd]. split.
      * intros [= <-]. exists res. split; [done|]. split; [done|]. by destruct (d _).
      * intros (res' & [= <-] & _ & Hd). by rewrite Hd.
    + split; [done|]. split; [|by intros ?? [=]]. intros out. split; [done|].
      by intros (res' & [= <-] & ? & _).
  - split; [done|]. split; [|by intros ?? [= <- <-]].
    intros out. split; [done|]. by intros (? & [=] & _).
  - split; [done|]. split; [|by intros ?? [=]].
    intros out. split; [done|]. by intros (? & [=] & _).
Qed.

(** X13.  The two fetches of create metadata hand a transport error on as
    it is, turn a nil answer into the empty-response error, and give a
    response exactly when the status is 200: then it comes with whatever
    error the decoder had, so a response and an error can come together,
    and never neither. *)
Theorem createmeta_fetch_results
    (GetV2 : string → option Response * option error)
    (Decode : string → createmeta.CreateMetaResponse * option error)
    (DecodeV9 : string → createmeta.CreateMetaResponseJiraServerV9 * option error)
    (req : createmeta.CreateMetaRequest) :
  let r := createmeta.GetCreateMeta GetV2 Decode req in
  let r9 := createmeta.GetCreateMetaForJiraServerV9 GetV2 DecodeV9 req in
  (r ≠ (None, None) ∧
   (∀ out, r.1 = Some out ↔
      ∃ res, GetV2 (createmeta_path req) = (Some res, None) ∧
             StatusCode res = 200 ∧ Decode (Body res) = (out, r.2)) ∧
   (∀ res err, GetV2 (createmeta_path req) = (res, Some err) → r = (None, Some err))) ∧
  (r9 ≠ (None, None) ∧
   (∀ out, r9.1 = Some out ↔
      ∃ res, GetV2 (createmeta_v9_path req) = (Some res, None) ∧
             StatusCode res = 200 ∧ DecodeV9 (Body res) = (out, r9.2)) ∧
   (∀ res err, GetV2 (createmeta_v9_path req) = (res, Some err) → r9 = (None, Some err))).
Proof.
  intros r r9. split.
  - apply (fetch_shape _ Decode), GetCreateMeta_cases.
  - apply (fetch_shape _ DecodeV9), GetCreateMetaForJiraServerV9_cases.
Qed.

(** X14.  [GetIssueTypeFields] panics in one case only: the fetch went
    well, there is a project, and among the issue types of the first
    project a nil pointer stands before any issue type with the ID.  A nil
    response never reaches the loop. *)
Theorem GetIssueTypeFields_panics_iff
    (GetV2 : string → option Response * option error)
    (Decode : string → createmeta.CreateMetaResponse * option error)
    (project issueTypeID : string) :
  createmeta.GetIssueTypeFields GetV2 Decode project issueTypeID = Panics ↔
  ∃ meta first others,
    createmeta.GetCreateMeta GetV2 Decode
      (createmeta.mkRequest project EmptyString "projects.issuetypes.fields")
    = (Some meta, None) ∧
    createmeta.MetaProjects meta = first :: others ∧
    nil_before_match issueTypeID (createmeta.IssueTypes first).
Proof.
  unfold createmeta.GetIssueTypeFields.
  pose proof (GetCreateMeta_not_both_nil GetV2 Decode
                (createmeta.mkRequest project EmptyString "projects.issuetypes.fields"))
    as Hboth.
  destruct (createmeta.GetCreateMeta _ _ _) as [[meta|] [err|]]; try done.
  - split; [done|]. by intros (? & ? & ? & [=] & _).
  - destruct (createmeta.MetaProjects meta) as [|first others] eqn:Hp.
    + split; [done|]. intros (? & ? & ? & [= <-] & Hp' & _). congruence.
    + rewrite find_issue_type_panics. split.
      * intros Hn. by exists meta, first, others.
      * intros (? & ? & ? & [= <-] & Hp' & Hn). rewrite Hp in Hp'. by injection Hp' as <- _.
  - split; [done|]. by intros (? & ? & ? & [=] & _).
Qed.

(** X15.  [GetIssueTypeFields] asks the server for one path, which holds
    the project and not the issue type: two transports that answer that
    path alike give the same result, for every issue type ID. *)
Theorem GetIssueTypeFields_asks_one_path
    (GetV2 GetV2' : string → option Response * option error)
    (Decode : string → createmeta.CreateMetaResponse * option error)
    (project issueTypeID : string) :
  GetV2 (fields_path project) = GetV2' (fields_path project) →
  createmeta.GetIssueTypeFields GetV2 Decode project issueTypeID
  = createmeta.GetIssueTypeFields GetV2' Decode project issueTypeID.
Proof.
  intros Hsame. unfold createmeta.GetIssueTypeFields.
  rewrite !GetCreateMeta_cases.
  change (createmeta_path
            (createmeta.mkRequest project EmptyString "projects.issuetypes.fields"))
    with (fields_path project).
  by rewrite Hsame.
Qed.

(** * More about the marshaler *)

Section MarshalerExtras.
Context `{Strconv}.

Lemma Marshal_object_None (m : gmap string any) :
  json_Marshal (AObject m) = None ↔
  ∃ key val, m !! key = Some val ∧ json_Marshal val = None.
Proof.
  cbn [json_Marshal]. rewrite fmap_None, mapM_None, Exists_exists. split.
  - intros ([key t] & Hin & Hk). apply elem_of_map_to_list in Hin.
    rewrite lookup_fmap in Hin. destruct (m !! key) as [val|] eqn:Hm; [|done].
    cbn in Hin. injection Hin as <-. exists key, val. split; [done|].
    unfold keyed in Hk. cbn in Hk. by destruct (json_Marshal val).
  - intros (key & val & Hm & Hv). exists (key, None). split.
    + apply elem_of_map_to_list. by rewrite lookup_fmap, Hm, <- Hv.
    + done.
Qed.

Lemma fields_generic_encodable f key val :
  fields_generic f !! key = Some val → is_Some (json_Marshal val).
Proof.
  unfold fields_generic. destruct f as [[[a]|] [[r]|] cf]; cbn [Assignee Resolution];
    intros Hk; repeat (apply lookup_insert_Some in Hk as [[_ <-]|[_ Hk]]; [by eexists|]);
    by rewrite lookup_empty in Hk.
Qed.

Lemma customFields_visited_perm fields custom :
  customFields_visited (M (NewTransitionFieldsMarshaler fields custom))
  ≡ₚ map_to_list (custom_map custom).
Proof.
  unfold customFields_visited, custom_map. destruct custom as [cf|]; cbn; [done|].
  by rewrite map_to_list_empty.
Qed.

Lemma MarshalJSON_run fields custom :
  MarshalJSON (NewTransitionFieldsMarshaler fields custom) =
  match json_Marshal (AObject (custom_map custom ∪ fields_generic fields)) with
  | Some data => Returns (Some data) None
  | None => Returns None (Some unsupported)
  end.
Proof.
  unfold MarshalJSON.
  change (json_Marshal_fields (M (NewTransitionFieldsMarshaler fields custom)))
    with (json_Marshal_fields (mkFields (Assignee fields) (Resolution fields) custom)).
  rewrite Unmarshal_fields.
  change (fields_generic (mkFields (Assignee fields) (Resolution fields) custom))
    with (fields_generic fields).
  by rewrite (inject_union _ (custom_map custom)) by apply customFields_visited_perm.
Qed.

Lemma Marshal_union_None fields custom :
  json_Marshal (AObject (custom_map custom ∪ fields_generic fields)) = None ↔
  ∃ key val, custom_map custom !! key = Some val ∧ json_Marshal val = None.
Proof.
  rewrite Marshal_object_None. split.
  - intros (key & val & Hk & Hv). exists key, val. split; [|done].
    apply lookup_union_Some_raw in Hk as [Hk|[_ Hk]]; [done|].
    apply fields_generic_encodable in Hk as [t Ht]. congruence.
  - intros (key & val & Hk & Hv). exists key, val. split; [|done].
    by apply lookup_union_Some_l.
Qed.

Lemma MarshalJSON_fails_iff fields custom :
  MarshalJSON (NewTransitionFieldsMarshaler fields custom) = Returns None (Some unsupported)
  ↔ ∃ key val, custom_map custom !! key = Some val ∧ json_Marshal val = None.
Proof.
  rewrite MarshalJSON_run, <- (Marshal_union_None fields custom).
  destruct (json_Marshal (AObject _)); split; intros [=]; done.
Qed.

(** X16.  The marshaler never panics and never fails on re-reading the
    static fields.  It returns an error exactly when some custom value
    cannot be written as JSON, and bytes otherwise. *)
Theorem MarshalJSON_error_iff
    (fields : TransitionRequestFields) (custom : option (gmap string any)) :
  let r := MarshalJSON (NewTransitionFieldsMarshaler fields custom) in
  r ≠ Panics ∧
  (r = Returns None (Some unsupported) ↔
     ∃ key val, custom_map custom !! key = Some val ∧ json_Marshal val = None) ∧
  ((∃ data, r = Returns (Some data) None) ↔
     ∀ key val, custom_map custom !! key = Some val → is_Some (json_Marshal val)).
Proof.
  intros r. subst r. split; [|split; [apply MarshalJSON_fails_iff|]].
  - rewrite MarshalJSON_run. by destruct (json_Marshal (AObject _)).
  - pose proof (Marshal_union_None fields custom) as Hiff. rewrite MarshalJSON_run.
    destruct (json_Marshal (AObject _)) as [data|] eqn:Hm.
    + split; [|eauto]. intros _ key val Hk.
      destruct (json_Marshal val) as [t|] eqn:Hv; [by eexists|].
      assert (Some data = None) as Hbad by (apply Hiff; eauto). done.
    + split; [by intros [? [=]]|]. intros Hall.
      destruct (proj1 Hiff eq_refl) as (key & val & Hk & Hv).
      destruct (Hall key val Hk) as [t Ht]. congruence.
Qed.

Lemma Marshal_named_value n :
  json_Marshal (named_value n) = Some (named_text (coerced_name n)).
Proof. by destruct n. Qed.

(** X17.  A static field is written under its key with its name coerced
    to well-formed UTF-8, unless the custom-field set has an entry under
    that key; for a name that is well-formed UTF-8 that is the member as
    the struct alone is written. *)
Theorem static_fields_kept
    (fields : TransitionRequestFields) (custom : option (gmap string any))
    (data : string) :
  MarshalJSON (NewTransitionFieldsMarshaler fields custom) = Returns (Some data) None →
  (∀ n, Assignee fields = Some n → custom_map custom !! "assignee" = None →
        occurs (member_text ("assignee", named_text (coerced_name n))) data ∧
        (valid_name n → occurs (member_text ("assignee", named_text n)) data)) ∧
  (∀ n, Resolution fields = Some n → custom_map custom !! "resolution" = None →
        occurs (member_text ("resolution", named_text (coerced_name n))) data ∧
        (valid_name n → occurs (member_text ("resolution", named_text n)) data)).
Proof.
  rewrite MarshalJSON_run.
  destruct (json_Marshal (AObject _)) as [data'|] eqn:Hm; [|done]. intros [= <-].
  assert (∀ key n, fields_generic fields !! key = Some (named_value n) →
            custom_map custom !! key = None →
            occurs (member_text (key, named_text (coerced_name n))) data' ∧
            (valid_name n → occurs (member_text (key, named_text n)) data')) as Hkept.
  { intros key n Hk Hc.
    destruct (Marshal_object_member _ _ key (named_value n) Hm) as (t & Ht & Ho).
    - by rewrite lookup_union_r.
    - rewrite Marshal_named_value in Ht. injection Ht as <-. split; [done|].
      intros Hv. destruct n as [Name]. cbn in Hv. cbn [coerced_name] in Ho.
      by rewrite (coerce_valid _ Hv) in Ho. }
  split; intros n Hn Hc; apply Hkept; try done;
    unfold fields_generic; rewrite Hn.
  - destruct (Resolution fields).
    + rewrite lookup_insert_ne by done. apply lookup_insert_eq.
    + apply lookup_insert_eq.
  - apply lookup_insert_eq.
Qed.

Lemma Marshal_leaf_None (v : any) :
  (∀ m, v ≠ AObject m) →
  json_Marshal v = None ↔ ∃ num, v = ANumber num ∧ FormatFloat num = None.
Proof.
  intros Hleaf. destruct v; cbn [json_Marshal]; try (split; [done|by intros (? & [=] & _)]).
  - split; [eauto|]. by intros (? & [= <-] & ?).
  - by destruct (Hleaf m).
Qed.

Lemma classify_leaf val f m : classify val f ≠ AObject m.
Proof. unfold classify. repeat case_decide; try done. by destruct (ParseFloat val). Qed.

Lemma built_values_classified cfg (l : list (string * string)) cf key v :
  foldl (build_entry cfg) cf l !! key = Some v →
  cf !! key = Some v ∨ ∃ val f, v = classify val f.
Proof.
  rewrite build_fold_lookup. destruct (last (omap _ l)) as [w|] eqn:Hl; [|by left].
  intros [= <-]. right. apply last_Some_elem_of, list_elem_of_omap in Hl as (kv & _ & Hw).
  unfold written in Hw. apply fmap_Some in Hw as (f & _ & ->). eauto.
Qed.

(** X18.  What the builder makes of a request, the marshaler writes
    without error, unless a number field took a value that JSON cannot
    hold. *)
Theorem built_payload_error_iff
    (fields : TransitionRequestFields)
    (requested : entries string) (configuredFields : list IssueTypeField) :
  let custom := BuildCustomFieldsForTransition requested configuredFields in
  MarshalJSON (NewTransitionFieldsMarshaler fields custom) = Returns None (Some unsupported)
  ↔ ∃ key num, custom_map custom !! key = Some (ANumber num) ∧ FormatFloat num = None.
Proof.
  intros custom. rewrite MarshalJSON_fails_iff.
  split.
  - intros (key & v & Hk & Hv). exists key.
    assert (∀ m, v ≠ AObject m) as Hleaf.
    { subst custom. unfold BuildCustomFieldsForTransition, custom_map in Hk.
      case_decide; cbn [default] in Hk; [by rewrite lookup_empty in Hk|].
      apply built_values_classified in Hk as [Hk|(val & f & ->)].
      - by rewrite lookup_empty in Hk.
      - intros m. apply classify_leaf. }
    apply Marshal_leaf_None in Hv as (num & -> & Hn); [|done]. eauto.
  - intros (key & num & Hk & Hn). by exists key, (ANumber num).
Qed.

End MarshalerExtras.

(** * The transition request *)

Section TransitionFacts.
Context `{Strconv}.
Variable PostV2 : string → string → option Response * option error.
Variable Error : error → string.

Lemma MarshalJSON_cases (tfm : transitionFieldsMarshaler) :
  (∃ text, MarshalJSON tfm = Returns (Some text) None) ∨
  MarshalJSON tfm = Returns None (Some unsupported).
Proof.
  destruct tfm as [[a r custom]].
  change (mkMarshaler (mkFields a r custom))
    with (NewTransitionFieldsMarshaler (mkFields a r None) custom).
  rewrite MarshalJSON_run. destruct (json_Marshal _); eauto.
Qed.

Lemma Marshal_request_cases (data : option transition.TransitionRequest) :
  (∃ body, transition.json_Marshal_request Error data = Returns (Some body) None) ∨
  (∃ tfm, data ≫= transition.Fields = Some tfm ∧
          MarshalJSON tfm = Returns None (Some unsupported) ∧
          transition.json_Marshal_request Error data
          = Returns None (Some (transition.MarshalerError Error unsupported))).
Proof.
  destruct data as [[u [tfm|] d]|]; cbn [transition.json_Marshal_request transition.Fields];
    [|by eauto..].
  destruct (MarshalJSON_cases tfm) as [[text ->]| Hm]; [by eauto|].
  right. exists tfm. rewrite Hm. by cbn.
Qed.

(** X19.  [Transition] never panics.  Its error is nil exactly when the
    status it returns is 204.  A status other than 0 is the status of a
    response that the server gave to the one request made, at the path of
    the issue and with the marshalled request as its body. *)
Theorem Transition_status_and_error
    (key : string) (data : option transition.TransitionRequest) :
  ∃ status err,
    transition.Transition PostV2 Error key data = Returns (Some status) err ∧
    (err = None ↔ status = 204) ∧
    (status ≠ 0 →
       ∃ body res,
         transition.json_Marshal_request Error data = Returns (Some body) None ∧
         PostV2 (transitions_path key) body = (Some res, None) ∧
         StatusCode res = status).
Proof.
  unfold transition.Transition. fold (transitions_path key).
  destruct (Marshal_request_cases data) as [[body ->]|(tfm & _ & _ & ->)].
  - cbn [default]. destruct (PostV2 _ _) as [[res|] [err|]] eqn:Hpost.
    + exists 0, (Some err). by split; [|split].
    + unfold transition.StatusNoContent. case_decide as Hs.
      * exists (StatusCode res), (Some (ErrUnexpectedResponse res)).
        split; [done|]. split; [by split|]. intros _. by exists body, res.
      * exists (StatusCode res), None.
        split; [done|]. split; [|intros _; by exists body, res].
        split; [|done]. intros _. by destruct (decide (StatusCode res = 204)).
    + exists 0, (Some err). by split; [|split].
    + exists 0, (Some ErrEmptyResponse). by split; [|split].
  - exists 0, (Some (transition.MarshalerError Error unsupported)). by split; [|split].
Qed.

(** X20.  When a custom value of the request cannot be written as JSON,
    [Transition] returns status 0 and the marshaller's error, whatever the
    server would have answered: nothing is sent. *)
Theorem Transition_unencodable_sends_nothing
    (key : string) (req : transition.TransitionRequest)
    (fields : TransitionRequestFields) (custom : option (gmap string any))
    (name : string) (val : any) :
  transition.Fields req = Some (NewTransitionFieldsMarshaler fields custom) →
  custom_map custom !! name = Some val →
  json_Marshal val = None →
  transition.Transition PostV2 Error key (Some req)
  = Returns (Some 0) (Some (transition.MarshalerError Error unsupported)).
Proof.
  intros Hf Hk Hv. unfold transition.Transition.
  cbn [transition.json_Marshal_request]. rewrite Hf.
  assert (MarshalJSON (NewTransitionFieldsMarshaler fields custom)
          = Returns None (Some unsupported)) as ->; [|done].
  apply MarshalJSON_fails_iff. eauto.
Qed.

(** X21.  The body that [Transition] posts holds, under [fields], the
    bytes of the marshaler, and in them every custom field under its key
    with the JSON of its value. *)
Theorem Transition_body_holds_custom_fields
    (key : string) (req : transition.TransitionRequest)
    (fields : TransitionRequestFields) (custom : option (gmap string any))
    (status : nat) (name : string) (val : any) :
  transition.Fields req = Some (NewTransitionFieldsMarshaler fields custom) →
  custom_map custom !! name = Some val →
  transition.Transition PostV2 Error key (Some req) = Returns (Some status) None →
  ∃ body data text res,
    PostV2 (transitions_path key) body = (Some res, None) ∧ StatusCode res = 204 ∧
    MarshalJSON (NewTransitionFieldsMarshaler fields custom) = Returns (Some data) None ∧
    occurs (member_text ("fields", data)) body ∧
    json_Marshal val = Some text ∧
    occurs (member_text (name, text)) data.
Proof.
  intros Hf Hk. unfold transition.Transition. fold (transitions_path key).
  cbn [transition.json_Marshal_request]. rewrite Hf, MarshalJSON_run.
  destruct (json_Marshal (AObject _)) as [data|] eqn:Hm; [|done]. cbn [default].
  destruct (PostV2 _ _) as [[res|] [err|]] eqn:Hpost; try done.
  unfold transition.StatusNoContent. case_decide as Hs; [done|]. intros _.
  destruct (Marshal_object_member _ _ name val Hm) as (text & Ht & Ho).
  { by apply lookup_union_Some_l. }
  eexists _, data, text, res. split; [exact Hpost|].
  split; [by destruct (decide (StatusCode res = 204))|]. split; [done|].
  split; [|done]. apply occurs_app_r, occurs_app_l, occurs_Join.
  apply elem_of_app. right. apply elem_of_app. left. by apply list_elem_of_singleton.
Qed.

End TransitionFacts.

(** The request and the body of the repository's test [TestTransition]. *)
Example TestTransition :
  transition.Transition (always 204) (fun _ => EmptyString) "TEST"
    (Some (transition.mkTransitionRequest None None
             (Some (transition.mkData "31" "Done"))))
  = Returns (Some 204) None
  ∧ transition.json_Marshal_request (fun _ => EmptyString)
      (Some (transition.mkTransitionRequest None None
               (Some (transition.mkData "31" "Done"))))
    = Returns (Some ("{" +:+ json.encodeString "transition" +:+ ":{"
                     +:+ json.encodeString "id" +:+ ":" +:+ json.encodeString "31" +:+ ","
                     +:+ json.encodeString "name" +:+ ":" +:+ json.encodeString "Done"
                     +:+ "}}")) None.
Proof. split; reflexivity. Qed.

(** * The questions of the create command *)

Lemma GetMetadataQuestions_snoc cat c :
  create.GetMetadataQuestions (cat ++ [c]) =
  create.GetMetadataQuestions cat ++ create.GetMetadataQuestions [c].
Proof.
  unfold create.GetMetadataQuestions. rewrite foldl_app. cbn [foldl].
  repeat (destruct (decide (c = _)); [done|]). by rewrite app_nil_r.
Qed.

(** X22.  [GetMetadataQuestions] asks one question for every chosen
    category that [GetMetadata] offers, in the order chosen and as often
    as chosen; the question is named by the category in lower case, is a
    free input and is not validated.  Any other category gives no
    question. *)
Theorem metadata_questions_follow_choice (cat : list string) :
  let qs := create.GetMetadataQuestions cat in
  survey.Name <$> qs = strings.ToLower <$> filter (.∈ offered) cat ∧
  Forall (fun q => survey.Validate q = None ∧
                   ∃ Message Help, survey.Prompt q = survey.Input Message Help) qs.
Proof.
  induction cat as [|c cat [IHn IHf]] using rev_ind; [by split|].
  cbn zeta. rewrite GetMetadataQuestions_snoc, fmap_app, filter_app, fmap_app, Forall_app.
  rewrite IHn. clear IHn.
  assert (c ∈ offered ↔ c = "Priority" ∨ c = "Components" ∨ c = "Labels"
                        ∨ c = "FixVersions" ∨ c = "AffectsVersions") as Hoffered.
  { unfold offered. cbn. rewrite !elem_of_cons, elem_of_nil. tauto. }
  unfold create.GetMetadataQuestions. cbn [foldl].
  destruct (decide (c ∈ offered)) as [Hc|Hc].
  - rewrite filter_cons_True, filter_nil by done.
    apply Hoffered in Hc as [->|[->|[->|[->| ->]]]];
      (split; [done|]); (split; [done|]); repeat constructor; eauto.
  - rewrite filter_cons_False, filter_nil by done.
    repeat case_decide; try (destruct Hc; apply Hoffered; tauto).
    by split; [|split].
Qed.

Lemma assign_Labels a p :
  create.Labels (create.HandleNoInput_assign a p) =
  if decide (0 < String.length (create.ans.Labels a))
  then strings.Split (create.ans.Labels a) "," else create.Labels p.
Proof. unfold create.HandleNoInput_assign. by repeat case_decide. Qed.

Lemma assign_Components a p :
  create.Components (create.HandleNoInput_assign a p) =
  if decide (0 < String.length (create.ans.Components a))
  then strings.Split (create.ans.Components a) "," else create.Components p.
Proof. unfold create.HandleNoInput_assign. by repeat case_decide. Qed.

Lemma assign_FixVersions a p :
  create.FixVersions (create.HandleNoInput_assign a p) =
  if decide (0 < String.length (create.ans.FixVersions a))
  then strings.Split (create.ans.FixVersions a) "," else create.FixVersions p.
Proof. unfold create.HandleNoInput_assign. by repeat case_decide. Qed.

Lemma assign_AffectsVersions a p :
  create.AffectsVersions (create.HandleNoInput_assign a p) =
  if decide (0 < String.length (create.ans.AffectsVersions a))
  then strings.Split (create.ans.AffectsVersions a) "," else create.AffectsVersions p.
Proof. unfold create.HandleNoInput_assign. by repeat case_decide. Qed.

Lemma list_field_assigned a p answer field :
  (answer, field) ∈ list_fields →
  field (create.HandleNoInput_assign a p) =
  if decide (0 < String.length (answer a)) then strings.Split (answer a) "," else field p.
Proof.
  unfold list_fields. rewrite !elem_of_cons, elem_of_nil.
  intros [[= -> ->]|[[= -> ->]|[[= -> ->]|[[= -> ->]|[]]]]].
  - apply assign_Labels.
  - apply assign_Components.
  - apply assign_FixVersions.
  - apply assign_AffectsVersions.
Qed.

Lemma length_zero_empty (s : string) : ¬ 0 < String.length s → s = EmptyString.
Proof. destruct s; [done|]. cbn. lia. Qed.

(** X23.  From the answers of a round, [HandleNoInput] gives each list
    field of the parameters the pieces of its answer between the commas,
    as typed: not trimmed and none left out, so that joined with commas
    they are the answer again and there is one more of them than there are
    commas.  An empty answer leaves the field as it was, and no answer
    empties a field. *)
Theorem answers_become_lists
    (a : create.ans.t) (params : create.CreateParams)
    (answer : create.ans.t → string) (field : create.CreateParams → list string) :
  (answer, field) ∈ list_fields →
  let after := field (create.HandleNoInput_assign a params) in
  (answer a = EmptyString → after = field params) ∧
  (answer a ≠ EmptyString →
     strings.Join after "," = answer a ∧
     length after = S (count_byte comma (answer a))) ∧
  (after = [] → field params = []).
Proof.
  intros Hin after. subst after. rewrite (list_field_assigned _ _ _ _ Hin).
  case_decide as Hlen.
  - split; [|split].
    + intros Hempty. rewrite Hempty in Hlen. cbn in Hlen. lia.
    + intros _. split; [apply Join_Split|apply Split_length].
    + intros Hnil. by destruct (Split_nonempty (answer a)).
  - apply length_zero_empty in Hlen. by split; [|split].
Qed.

(** X24.  The assignments of a round touch the priority and the four
    list fields only, and a second round with the same answers changes
    nothing more. *)
Theorem answers_assigned_once (a : create.ans.t) (params : create.CreateParams) :
  let after := create.HandleNoInput_assign a params in
  create.HandleNoInput_assign a after = after ∧
  create.set_Priority (create.Priority params)
    (create.set_Labels (create.Labels params)
       (create.set_Components (create.Components params)
          (create.set_FixVersions (create.FixVersions params)
             (create.set_AffectsVersions (create.AffectsVersions params) after))))
  = params.
Proof.
  destruct params. unfold create.HandleNoInput_assign. cbn zeta.
  split; repeat case_decide; done.
Qed.

(** * The properties above on sample data *)

(** Two strings with white space around the first. *)
Lemma array_elements_shape_witness :
  DataType (Schema (tags "string")) = customFieldFormatArray ∧
  ∃ pieces, classify " a ,b" (tags "string") = AStrings pieces ∧
            length pieces = 2 ∧ Forall trimmed_piece pieces.
Proof.
  split; [reflexivity|].
  destruct (array_elements_shape " a ,b" (tags "string") eq_refl)
    as (pieces & Hc & Hl & Hf).
  exists pieces. split; [exact Hc|]. split; [exact Hl | exact Hf].
Defined.

(** Two tags, joined and read back. *)
Lemma array_reads_back_joined_list_witness :
  Forall trimmed_piece ["backend"; "urgent"] ∧
  Forall (fun p => ascii_only p = true) ["backend"; "urgent"] ∧
  classify "backend,urgent" (tags "string") = AStrings ["backend"; "urgent"].
Proof.
  assert (Forall trimmed_piece ["backend"; "urgent"]) as Hl.
  { repeat constructor. }
  assert (Forall (fun p => ascii_only p = true) ["backend"; "urgent"]) as Ha.
  { repeat constructor. }
  split; [exact Hl|]. split; [exact Ha|].
  refine (array_reads_back_joined_list ["backend"; "urgent"] (tags "string")
            eq_refl _ _ Hl Ha); discriminate.
Defined.

(** Two requested entries, visited in the one order and in the other. *)
Lemma build_order_independent_witness :
  key_coherent [story_points; tags "string"] ∧
  BuildCustomFieldsForTransition (Some [("tags", "a"); ("story-points", "5")])
    [story_points; tags "string"]
  = BuildCustomFieldsForTransition (Some [("story-points", "5"); ("tags", "a")])
      [story_points; tags "string"].
Proof.
  assert (key_coherent [story_points; tags "string"]) as Hk.
  { intros f g Hf Hg. rewrite !elem_of_cons, elem_of_nil in Hf, Hg.
    destruct Hf as [->|[->|[]]], Hg as [->|[->|[]]]; done. }
  split; [exact Hk|].
  refine (build_order_independent _ _ _ (perm_swap _ _ _) _ Hk).
  apply (bool_decide_unpack _). vm_compute. exact I.
Defined.

(** The name of a field as it is displayed, with its space. *)
Lemma name_with_space_matches_nothing_witness :
  has_byte space "Story Points" = true ∧
  BuildCustomFieldsForTransition (Some [("Story Points", "5")]) [story_points] = Some ∅ ∧
  (ValidateAndFilterCustomFields (Some [("Story Points", "5")]) [story_points]
     [story_points] "Story").1 = None.
Proof.
  split; [reflexivity|].
  destruct (name_with_space_matches_nothing "Story Points" "5" [story_points]
              [story_points] "Story" eq_refl) as (_ & Hb & Hv).
  split; [apply Hb; discriminate | exact Hv].
Defined.

(** A request in the spelling of the identifier. *)
Lemma silent_check_means_nothing_dropped_witness :
  ValidateCustomFields (Some [("story-points", "5")]) [story_points] = None ∧
  ∃ cf, BuildCustomFieldsForTransition (Some [("story-points", "5")]) [story_points]
        = Some cf ∧
        is_Some (cf !! "customfield_10001").
Proof.
  split; [reflexivity|].
  destruct (silent_check_means_nothing_dropped (Some [("story-points", "5")])
              [story_points]) as (cf & Hcf & Hall); [cbn; lia | reflexivity |].
  exists cf. split; [exact Hcf|].
  destruct (Hall "story-points") as (f & Hf & Hid & Hsome); [left|].
  apply list_elem_of_singleton in Hf. by rewrite Hf in Hsome.
Defined.

(** A request in lower case that the strict validator lets pass. *)
Lemma strict_pass_means_lenient_silent_witness :
  (ValidateAndFilterCustomFields (Some [("story-points", "5")]) [story_points]
     [story_points] "Story").2 = None ∧
  ValidateCustomFields (Some [("story-points", "5")]) [story_points] = None.
Proof.
  split; [reflexivity|].
  apply (strict_pass_means_lenient_silent (Some [("story-points", "5")]) [story_points]
           [story_points] "Story"); [|reflexivity].
  by repeat constructor.
Defined.

(** A validated request for story points, then built. *)
Lemma validated_request_is_built_in_full_witness :
  (ValidateAndFilterCustomFields (Some [("Story-Points", "5")]) [story_points]
     [story_points] "Story").2 = None ∧
  ∃ cf, BuildCustomFieldsForTransition (Some [("Story-Points", "5")]) [story_points]
        = Some cf ∧
        is_Some (cf !! "customfield_10001").
Proof.
  split; [reflexivity|].
  destruct (validated_request_is_built_in_full (Some [("Story-Points", "5")])
              [story_points] [story_points] "Story")
    as (cf & Hcf & Hall); [cbn; lia | reflexivity |].
  exists cf. split; [exact Hcf|].
  destruct (Hall "Story-Points") as (f & Hf & _ & Hsome); [left|].
  vm_compute in Hf. injection Hf as <-. exact Hsome.
Defined.

(** A good and a bad name, visited in the one order and in the other. *)
Lemma strict_validation_order_independent_witness :
  (ValidateAndFilterCustomFields (Some [("story-points", "5"); ("unknown", "x")])
     [story_points] [story_points] "Story").1
  = (ValidateAndFilterCustomFields (Some [("unknown", "x"); ("story-points", "5")])
       [story_points] [story_points] "Story").1.
Proof.
  refine (proj1 (strict_validation_order_independent
                   [("story-points", "5"); ("unknown", "x")]
                   [("unknown", "x"); ("story-points", "5")]
                   [story_points] [story_points] "Story" (perm_swap _ _ _) _)).
  apply (bool_decide_unpack _). vm_compute. exact I.
Defined.

(** Two unknown names in a request for a bug. *)
Lemma strict_error_opens_with_invalid_names_witness :
  ∃ err rest,
    (ValidateAndFilterCustomFields (Some [("unknown", "x"); ("other", "y")])
       [environment] [story_points] "Bug").2 = Some err ∧
    err = ErrText ("Invalid custom fields for issue type 'Bug': unknown, other" +:+ rest).
Proof.
  eexists.
  destruct (strict_error_opens_with_invalid_names
              (Some [("unknown", "x"); ("other", "y")]) [environment] [story_points]
              "Bug" _ eq_refl (ltac:(by repeat constructor)) (ltac:(by repeat constructor))
              (ltac:(by repeat constructor)) eq_refl) as (rest & Herr).
  exists rest. split; [reflexivity|]. exact Herr.
Defined.

(** A transport that knows the one path, and one that answers every path. *)
Lemma GetIssueTypeFields_asks_one_path_witness :
  createmeta.GetIssueTypeFields
    (answer_at (fields_path "PRJ") (mkResponse 200 "{}")) decode_one_project "PRJ" "10001"
  = createmeta.GetIssueTypeFields answer_ok decode_one_project "PRJ" "10001".
Proof.
  exact (GetIssueTypeFields_asks_one_path
           (answer_at (fields_path "PRJ") (mkResponse 200 "{}")) answer_ok
           decode_one_project "PRJ" "10001" eq_refl).
Defined.

(** An assignee beside a custom field under another key. *)
Lemma static_fields_kept_witness :
  ∃ data,
    MarshalJSON (NewTransitionFieldsMarshaler
                   (mkFields (Some (mkNamed "jane")) None None)
                   (Some {[ "customfield_10001" := ANumber 5%N ]}))
    = Returns (Some data) None ∧
    occurs (member_text ("assignee", named_text (mkNamed "jane"))) data.
Proof.
  eexists. split; [reflexivity|].
  exact (proj2 (proj1 (static_fields_kept
                         (mkFields (Some (mkNamed "jane")) None None)
                         (Some {[ "customfield_10001" := ANumber 5%N ]}) _ eq_refl)
                      (mkNamed "jane") eq_refl eq_refl) eq_refl).
Defined.

(** Story points that are not a number, on a server that would accept. *)
Lemma Transition_unencodable_sends_nothing_witness :
  json_Marshal NaN_value = None ∧
  transition.Transition (always 204) (fun _ => "unsupported") "TEST" (Some NaN_request)
  = Returns (Some 0)
      (Some (transition.MarshalerError (fun _ => "unsupported") unsupported)).
Proof.
  split; [reflexivity|].
  exact (Transition_unencodable_sends_nothing
           (always 204) (fun _ => "unsupported") "TEST" NaN_request
           (mkFields None None None)
           (Some {[ "customfield_10001" := NaN_value ]}) "customfield_10001"
           NaN_value eq_refl eq_refl eq_refl).
Defined.

(** Story points of 5 in an accepted transition. *)
Lemma Transition_body_holds_custom_fields_witness :
  ∃ body data,
    always 204 (transitions_path "TEST") body = (Some (mkResponse 204 EmptyString), None) ∧
    occurs (member_text ("fields", data)) body ∧
    occurs (member_text ("customfield_10001", "5")) data.
Proof.
  destruct (Transition_body_holds_custom_fields (always 204) (fun _ => EmptyString) "TEST"
              five_points_request (mkFields None None None) (Some five_points) 204
              "customfield_10001" _ eq_refl eq_refl eq_refl)
    as (body & data & text & res & Hpost & _ & _ & Hbody & Htext & Hdata).
  exists body, data. split; [reflexivity|]. split; [exact Hbody|].
  vm_compute in Htext. injection Htext as <-. exact Hdata.
Defined.

(** Labels typed with a space after the comma. *)
Lemma answers_become_lists_witness :
  (create.ans.Labels, create.Labels) ∈ list_fields ∧
  strings.Join (create.Labels (create.HandleNoInput_assign labels_typed no_params)) ","
  = "backend, urgent" ∧
  length (create.Labels (create.HandleNoInput_assign labels_typed no_params)) = 2.
Proof.
  assert ((create.ans.Labels, create.Labels) ∈ list_fields) as Hin by left.
  split; [exact Hin|].
  refine (proj1 (proj2 (answers_become_lists labels_typed no_params _ _ Hin)) _).
  discriminate.
Defined.
